(** * CopyApp: the document-session engine of [copyapp.py]

    A shallow embedding of the parts of [copyapp.py] that hold and change
    documents ([DocumentTab], [CopyAppTUI]), of its pure helpers
    ([TextProcessor.detect_language], [TextProcessor.clean_whitespace],
    [TextProcessor.reading_time], [CryptoManager]) and of the batch
    fetch of [NetworkManager], followed by the properties of these
    definitions.

    Conventions.  A Python [str] is the list of its code points, a [bytes]
    value the list of its octets, both over [Z].  A Python [int] is a [Z].
    What the program gets from outside (the file system, the terminal, the
    clipboard, the network, the scheduling of worker threads) is an
    argument of the operation that consumes it.  A call that can raise
    returns its exception as a value. *)

From Stdlib Require Import ZArith List String Ascii Bool Lia.
From stdpp Require Import base gmap list sorting.
Import ListNotations.

Local Open Scope Z_scope.

(** ** Python strings and bytes *)

Definition pystr := list Z.
Definition pybytes := list Z.

(** [ord] of a character of a Rocq string literal. *)
Definition ord (a : ascii) : Z := Z.of_N (N_of_ascii a).

(** The Python string written as an ASCII literal. *)
Definition py (s : string) : pystr := map ord (list_ascii_of_string s).

Definition str_eqb (a b : pystr) : bool := bool_decide (a = b).

(** [s.startswith(p)] *)
Fixpoint startswith (p s : pystr) : bool :=
  match p, s with
  | [], _ => true
  | _ :: _, [] => false
  | a :: p', b :: s' => (a =? b) && startswith p' s'
  end.

(** The left-to-right scan shared by [str.count] and [str.replace] for a
    non-empty pattern: matches do not overlap, so after a match at a
    position the scan resumes [len(find)] characters later.  [skip] counts
    the characters of the last match that are still to be passed. *)
Fixpoint count_from (find : pystr) (skip : nat) (s : pystr) : nat :=
  match s with
  | [] => 0%nat
  | _ :: s' =>
      match skip with
      | S k => count_from find k s'
      | O =>
          if startswith find s
          then S (count_from find (length find - 1) s')
          else count_from find 0 s'
      end
  end.

Fixpoint replace_from (find repl : pystr) (skip : nat) (s : pystr) : pystr :=
  match s with
  | [] => []
  | c :: s' =>
      match skip with
      | S k => replace_from find repl k s'
      | O =>
          if startswith find s
          then repl ++ replace_from find repl (length find - 1) s'
          else c :: replace_from find repl 0 s'
      end
  end.

(** [s.count(find)]: the empty pattern is found before every character and
    at the end. *)
Definition str_count (s find : pystr) : nat :=
  match find with
  | [] => S (length s)
  | _ :: _ => count_from find 0 s
  end.

(** [s.replace(find, repl)] *)
Definition str_replace (s find repl : pystr) : pystr :=
  match find with
  | [] => repl ++ flat_map (fun c => c :: repl) s
  | _ :: _ => replace_from find repl 0 s
  end.

(** [sep.join(parts)] *)
Fixpoint str_join (sep : pystr) (parts : list pystr) : pystr :=
  match parts with
  | [] => []
  | [p] => p
  | p :: rest => p ++ sep ++ str_join sep rest
  end.

(** [s.split(sep)] for a one-character separator such as ['\n']. *)
Fixpoint split_char (sep : Z) (s : pystr) : list pystr :=
  match s with
  | [] => [[]]
  | c :: s' =>
      if c =? sep then [] :: split_char sep s'
      else match split_char sep s' with
           | [] => [[c]]
           | w :: ws => (c :: w) :: ws
           end
  end.

(** The decimal digits of a natural number, as [str(n)] gives them. *)
Fixpoint digits_fuel (fuel : nat) (n : Z) (acc : pystr) : pystr :=
  match fuel with
  | O => acc
  | S f =>
      let acc' := (48 + n mod 10) :: acc in
      if n <? 10 then acc' else digits_fuel f (n / 10) acc'
  end.

Definition str_of_nat (n : nat) : pystr :=
  digits_fuel (S n) (Z.of_nat n) [].

(** ** Codecs of the Python runtime

    [str.encode()], [bytes.decode()], [base64] and [hashlib.md5] belong to
    the Python runtime, not to the program; they are written here after
    their definitions (RFC 3629, RFC 4648 with the lenient reading of
    [binascii.a2b_base64], RFC 1321). *)

Definition is_surrogate (c : Z) : bool := (0xD800 <=? c) && (c <=? 0xDFFF).

(** The UTF-8 octets of one code point; [None] is [UnicodeEncodeError]. *)
Definition utf8_encode_char (c : Z) : option pybytes :=
  if c <? 0 then None
  else if c <? 0x80 then Some [c]
  else if c <? 0x800 then Some [0xC0 + c / 64; 0x80 + c mod 64]
  else if is_surrogate c then None
  else if c <? 0x10000 then
    Some [0xE0 + c / 4096; 0x80 + (c / 64) mod 64; 0x80 + c mod 64]
  else if c <? 0x110000 then
    Some [0xF0 + c / 262144; 0x80 + (c / 4096) mod 64;
          0x80 + (c / 64) mod 64; 0x80 + c mod 64]
  else None.

(** [s.encode()] *)
Fixpoint utf8_encode (s : pystr) : option pybytes :=
  match s with
  | [] => Some []
  | c :: s' =>
      match utf8_encode_char c, utf8_encode s' with
      | Some b, Some bs => Some (b ++ bs)
      | _, _ => None
      end
  end.

(** [s.encode('utf-8', errors='replace')]: what cannot be encoded becomes
    ['?']. *)
Definition utf8_encode_replace (s : pystr) : pybytes :=
  flat_map (fun c => match utf8_encode_char c with
                     | Some b => b
                     | None => [63]
                     end) s.

Definition is_cont (b : Z) : bool := (0x80 <=? b) && (b <=? 0xBF).

(** [bs.decode()]: strict UTF-8; [None] is [UnicodeDecodeError]. *)
Fixpoint utf8_decode (bs : pybytes) : option pystr :=
  match bs with
  | [] => Some []
  | b0 :: r0 =>
      if (0 <=? b0) && (b0 <? 0x80) then cons b0 <$> utf8_decode r0
      else if (0xC2 <=? b0) && (b0 <=? 0xDF) then
        match r0 with
        | b1 :: r1 =>
            if is_cont b1
            then cons ((b0 - 0xC0) * 64 + (b1 - 0x80)) <$> utf8_decode r1
            else None
        | _ => None
        end
      else if (0xE0 <=? b0) && (b0 <=? 0xEF) then
        match r0 with
        | b1 :: b2 :: r2 =>
            if is_cont b1 && is_cont b2
               && negb ((b0 =? 0xE0) && (b1 <? 0xA0))
               && negb ((b0 =? 0xED) && (0xA0 <=? b1))
            then cons ((b0 - 0xE0) * 4096 + (b1 - 0x80) * 64 + (b2 - 0x80))
                   <$> utf8_decode r2
            else None
        | _ => None
        end
      else if (0xF0 <=? b0) && (b0 <=? 0xF4) then
        match r0 with
        | b1 :: b2 :: b3 :: r3 =>
            if is_cont b1 && is_cont b2 && is_cont b3
               && negb ((b0 =? 0xF0) && (b1 <? 0x90))
               && negb ((b0 =? 0xF4) && (0x90 <=? b1))
            then cons ((b0 - 0xF0) * 262144 + (b1 - 0x80) * 4096
                       + (b2 - 0x80) * 64 + (b3 - 0x80))
                   <$> utf8_decode r3
            else None
        | _ => None
        end
      else None
  end.

(** The base64 alphabet: the character of a six-bit value and back. *)
Definition b64_char (n : Z) : Z :=
  if n <? 26 then 65 + n
  else if n <? 52 then 97 + (n - 26)
  else if n <? 62 then 48 + (n - 52)
  else if n =? 62 then 43
  else 47.

Definition b64_value (c : Z) : option Z :=
  if (65 <=? c) && (c <=? 90) then Some (c - 65)
  else if (97 <=? c) && (c <=? 122) then Some (c - 97 + 26)
  else if (48 <=? c) && (c <=? 57) then Some (c - 48 + 52)
  else if c =? 43 then Some 62
  else if c =? 47 then Some 63
  else None.

(** [base64.b64encode(bs)] *)
Fixpoint b64encode (bs : pybytes) : pybytes :=
  match bs with
  | [] => []
  | [a] => [b64_char (a / 4); b64_char (a mod 4 * 16); 61; 61]
  | [a; b] =>
      [b64_char (a / 4); b64_char (a mod 4 * 16 + b / 16);
       b64_char (b mod 16 * 4); 61]
  | a :: b :: c :: rest =>
      b64_char (a / 4) :: b64_char (a mod 4 * 16 + b / 16)
      :: b64_char (b mod 16 * 4 + c / 64) :: b64_char (c mod 64)
      :: b64encode rest
  end.

(** [binascii.a2b_base64] as [base64.b64decode] calls it (not strict):
    characters outside the alphabet are skipped, a pad that completes a
    quad ends the decoding, and data that stops inside a quad is an error
    ([None] is [binascii.Error]).  [quad_pos] is the position in the
    current quad, [leftchar] the bits not yet written, [pads] the pads seen
    since the last data character. *)
Fixpoint a2b_base64 (quad_pos leftchar pads : Z) (s : pybytes)
  : option pybytes :=
  match s with
  | [] => if quad_pos =? 0 then Some [] else None
  | ch :: s' =>
      if ch =? 61 then
        if 2 <=? quad_pos then
          if 4 <=? quad_pos + (pads + 1) then Some []
          else a2b_base64 quad_pos leftchar (pads + 1) s'
        else a2b_base64 quad_pos leftchar pads s'
      else
        match b64_value ch with
        | None => a2b_base64 quad_pos leftchar pads s'
        | Some v =>
            if quad_pos =? 0 then a2b_base64 1 v 0 s'
            else if quad_pos =? 1 then
              cons (leftchar * 4 + v / 16) <$> a2b_base64 2 (v mod 16) 0 s'
            else if quad_pos =? 2 then
              cons (leftchar * 16 + v / 4) <$> a2b_base64 3 (v mod 4) 0 s'
            else cons (leftchar * 64 + v) <$> a2b_base64 0 0 0 s'
        end
  end.

(** [base64.b64decode(bs)] *)
Definition b64decode (bs : pybytes) : option pybytes := a2b_base64 0 0 0 bs.

(** *** MD5 *)

Definition w32 (x : Z) : Z := x mod 2 ^ 32.

Definition rotl32 (x n : Z) : Z :=
  w32 (Z.lor (Z.shiftl x n) (Z.shiftr x (32 - n))).

Definition not32 (x : Z) : Z := Z.lxor x 0xFFFFFFFF.

Definition md5_s : list Z :=
  [7; 12; 17; 22; 7; 12; 17; 22; 7; 12; 17; 22; 7; 12; 17; 22;
   5; 9; 14; 20; 5; 9; 14; 20; 5; 9; 14; 20; 5; 9; 14; 20;
   4; 11; 16; 23; 4; 11; 16; 23; 4; 11; 16; 23; 4; 11; 16; 23;
   6; 10; 15; 21; 6; 10; 15; 21; 6; 10; 15; 21; 6; 10; 15; 21].

Definition md5_K : list Z :=
  [ 0xd76aa478; 0xe8c7b756; 0x242070db; 0xc1bdceee;
    0xf57c0faf; 0x4787c62a; 0xa8304613; 0xfd469501;
    0x698098d8; 0x8b44f7af; 0xffff5bb1; 0x895cd7be;
    0x6b901122; 0xfd987193; 0xa679438e; 0x49b40821;
    0xf61e2562; 0xc040b340; 0x265e5a51; 0xe9b6c7aa;
    0xd62f105d; 0x02441453; 0xd8a1e681; 0xe7d3fbc8;
    0x21e1cde6; 0xc33707d6; 0xf4d50d87; 0x455a14ed;
    0xa9e3e905; 0xfcefa3f8; 0x676f02d9; 0x8d2a4c8a;
    0xfffa3942; 0x8771f681; 0x6d9d6122; 0xfde5380c;
    0xa4beea44; 0x4bdecfa9; 0xf6bb4b60; 0xbebfbc70;
    0x289b7ec6; 0xeaa127fa; 0xd4ef3085; 0x04881d05;
    0xd9d4d039; 0xe6db99e5; 0x1fa27cf8; 0xc4ac5665;
    0xf4292244; 0x432aff97; 0xab9423a7; 0xfc93a039;
    0x655b59c3; 0x8f0ccc92; 0xffeff47d; 0x85845dd1;
    0x6fa87e4f; 0xfe2ce6e0; 0xa3014314; 0x4e0811a1;
    0xf7537e82; 0xbd3af235; 0x2ad7d2bb; 0xeb86d391 ].

(** The eight octets of a 64-bit length and the four of a 32-bit word,
    least significant first. *)
Fixpoint le_bytes (n : nat) (x : Z) : pybytes :=
  match n with
  | O => []
  | S k => x mod 256 :: le_bytes k (x / 256)
  end.

Fixpoint le_word (bs : pybytes) : Z :=
  match bs with
  | [] => 0
  | b :: r => b + 256 * le_word r
  end.

(** The message followed by the bit 1, zeros up to 56 modulo 64, and the
    length in bits. *)
Definition md5_pad (msg : pybytes) : pybytes :=
  let n := Z.of_nat (length msg) in
  msg ++ [0x80] ++ repeat 0 (Z.to_nat ((55 - n) mod 64))
      ++ le_bytes 8 ((8 * n) mod 2 ^ 64).

Fixpoint words_of (n : nat) (bs : pybytes) : list Z :=
  match n with
  | O => []
  | S k => le_word (firstn 4 bs) :: words_of k (skipn 4 bs)
  end.

Definition md5_round (M : list Z) (st : Z * Z * Z * Z) (i : Z)
  : Z * Z * Z * Z :=
  let '(A, B, C, D) := st in
  let '(F, g) :=
    if i <? 16 then (Z.lor (Z.land B C) (Z.land (not32 B) D), i)
    else if i <? 32 then
      (Z.lor (Z.land D B) (Z.land (not32 D) C), (5 * i + 1) mod 16)
    else if i <? 48 then (Z.lxor B (Z.lxor C D), (3 * i + 5) mod 16)
    else (Z.lxor C (Z.lor B (not32 D)), (7 * i) mod 16) in
  let F' := w32 (F + A + nth (Z.to_nat i) md5_K 0 + nth (Z.to_nat g) M 0) in
  (D, w32 (B + rotl32 F' (nth (Z.to_nat i) md5_s 0)), B, C).

Definition md5_block (h : Z * Z * Z * Z) (block : pybytes) : Z * Z * Z * Z :=
  let M := words_of 16 block in
  let '(a0, b0, c0, d0) := h in
  let '(A, B, C, D) :=
    fold_left (md5_round M) (map Z.of_nat (seq 0 64)) h in
  (w32 (a0 + A), w32 (b0 + B), w32 (c0 + C), w32 (d0 + D)).

Fixpoint md5_blocks (n : nat) (h : Z * Z * Z * Z) (bs : pybytes)
  : Z * Z * Z * Z :=
  match n with
  | O => h
  | S k => md5_blocks k (md5_block h (firstn 64 bs)) (skipn 64 bs)
  end.

(** [hashlib.md5(msg).digest()] *)
Definition md5_digest (msg : pybytes) : pybytes :=
  let padded := md5_pad msg in
  let '(a, b, c, d) :=
    md5_blocks (length padded / 64)
      (0x67452301, 0xefcdab89, 0x98badcfe, 0x10325476) padded in
  le_bytes 4 a ++ le_bytes 4 b ++ le_bytes 4 c ++ le_bytes 4 d.

Definition hex_digit (n : Z) : Z := if n <? 10 then 48 + n else 87 + n.

(** [hashlib.md5(msg).hexdigest()] *)
Definition md5_hexdigest (msg : pybytes) : pystr :=
  flat_map (fun b => [hex_digit (b / 16); hex_digit (b mod 16)])
    (md5_digest msg).

(** Octets, and the characters of ASCII. *)
Definition is_byte (b : Z) : Prop := 0 <= b < 256.
Definition is_ascii (c : Z) : Prop := 0 <= c < 128.

(** ** What the program takes from the Python runtime

    The Unicode character database ([str.islower], [str.isupper],
    [str.isspace], [str.lower]), [int(s)], lossy decoding and the regular
    expression engine are tables and engines of the interpreter.  The
    program is embedded over any runtime that classifies the ASCII range
    as every Unicode version does. *)

Class Runtime := {
  (** [c.islower()], [c.isupper()], [c.isspace()] of a one-character
      string *)
  islower : Z -> bool;
  isupper : Z -> bool;
  isspace : Z -> bool;
  (** [s.lower()] *)
  str_lower : pystr -> pystr;
  (** [int(s)]; [None] is [ValueError] *)
  int_of_str : pystr -> option Z;
  (** [bs.decode('utf-8', errors='replace')] *)
  utf8_decode_replace : pybytes -> pystr;
  (** [re.search(pattern, s, re.MULTILINE)] finds a match *)
  re_search : pystr -> pystr -> bool;
  islower_ascii :
    forall c, 0 <= c < 128 -> islower c = (97 <=? c) && (c <=? 122);
  isupper_ascii :
    forall c, 0 <= c < 128 -> isupper c = (65 <=? c) && (c <=? 90)
}.

(** [s.strip()] *)
Definition str_strip `{Runtime} (s : pystr) : pystr :=
  let dropl := fix dropl (s : pystr) : pystr :=
    match s with
    | [] => []
    | c :: s' => if isspace c then dropl s' else s
    end in
  rev (dropl (rev (dropl s))).

(** [s.split()]: the maximal runs of characters that are not white space.
    [cur] is the run being read, reversed. *)
Fixpoint split_ws_from `{Runtime} (cur : option pystr) (s : pystr)
  : list pystr :=
  let flush := match cur with Some w => [rev w] | None => [] end in
  match s with
  | [] => flush
  | c :: s' =>
      if isspace c then flush ++ split_ws_from None s'
      else split_ws_from (Some (c :: default [] cur)) s'
  end.

Definition str_split_ws `{Runtime} (s : pystr) : list pystr :=
  split_ws_from None s.

(** Truth value of a string: non-empty. *)
Definition truthy (s : pystr) : bool :=
  match s with [] => false | _ :: _ => true end.

(** ** Exceptions *)

Inductive ExnKind :=
| EOFError | KeyboardInterrupt | UnicodeEncodeError | UnicodeDecodeError
| BinasciiError | ValueError | IndexError | OSError.

Record Exn := mkExn { exn_kind : ExnKind; exn_str : pystr }.

(** [except Exception] catches everything here but [KeyboardInterrupt]. *)
Definition is_Exception (e : Exn) : bool :=
  match exn_kind e with KeyboardInterrupt => false | _ => true end.

Inductive result (A : Type) :=
| Ok (a : A)
| Raise (e : Exn).
Arguments Ok {A} a.
Arguments Raise {A} e.

(** The number of characters at the head of [s] that cannot be encoded. *)
Fixpoint unencodable_run (s : pystr) : nat :=
  match s with
  | [] => O
  | c :: s' =>
      match utf8_encode_char c with
      | Some _ => O
      | None => S (unencodable_run s')
      end
  end.

(** Where [s.encode()] fails: the position of the first character that
    cannot be encoded, that character, and the number of such characters
    that follow it at once. *)
Fixpoint encode_failure (pos : nat) (s : pystr) : option (nat * Z * nat) :=
  match s with
  | [] => None
  | c :: s' =>
      match utf8_encode_char c with
      | Some _ => encode_failure (S pos) s'
      | None =>
          Some (pos, c, unencodable_run s')
      end
  end.

(** The four hexadecimal digits of ['\uXXXX']. *)
Definition hex4 (c : Z) : pystr :=
  [hex_digit (c / 4096 mod 16); hex_digit (c / 256 mod 16);
   hex_digit (c / 16 mod 16); hex_digit (c mod 16)].

(** The [UnicodeEncodeError] of [s.encode()], with its text as [str(e)]
    gives it. *)
Definition encode_error (s : pystr) : Exn :=
  mkExn UnicodeEncodeError
    (match encode_failure 0 s with
     | Some (pos, c, O) =>
         py "'utf-8' codec can't encode character '\u" ++ hex4 c
         ++ py "' in position " ++ str_of_nat pos
         ++ py ": surrogates not allowed"
     | Some (pos, _, S more) =>
         py "'utf-8' codec can't encode characters in position "
         ++ str_of_nat pos ++ py "-" ++ str_of_nat (pos + S more)
         ++ py ": surrogates not allowed"
     | None => []
     end).

(** [s.encode()] as a call that can raise. *)
Definition str_encode (s : pystr) : result pybytes :=
  match utf8_encode s with
  | Some bs => Ok bs
  | None => Raise (encode_error s)
  end.

(** ** DocumentTab *)

(** The fields the operations below read or write.  [bookmarks], [tags],
    [language], [encoding], [line_endings], [syntax_errors], [is_binary]
    keep their defaults throughout the program and the two time stamps are
    readings of the wall clock; they are left out. *)
Record DocumentTab := mkDocumentTab {
  name : pystr;
  content : pystr;
  file_path : option pystr;
  modified : bool;
  data_type : pystr;
  data_raw : pybytes;
  word_count : Z;
  char_count : Z;
  line_count : Z;
  checksum : pystr;
  version : Z
}.

Definition set_content (d : DocumentTab) (c : pystr) : DocumentTab :=
  mkDocumentTab (name d) c (file_path d) (modified d) (data_type d)
    (data_raw d) (word_count d) (char_count d) (line_count d) (checksum d)
    (version d).

Definition set_modified (d : DocumentTab) (m : bool) : DocumentTab :=
  mkDocumentTab (name d) (content d) (file_path d) m (data_type d)
    (data_raw d) (word_count d) (char_count d) (line_count d) (checksum d)
    (version d).

Definition set_data_raw (d : DocumentTab) (r : pybytes) : DocumentTab :=
  mkDocumentTab (name d) (content d) (file_path d) (modified d) (data_type d)
    r (word_count d) (char_count d) (line_count d) (checksum d) (version d).

Definition set_data_type (d : DocumentTab) (t : pystr) : DocumentTab :=
  mkDocumentTab (name d) (content d) (file_path d) (modified d) t
    (data_raw d) (word_count d) (char_count d) (line_count d) (checksum d)
    (version d).

Definition set_saved (d : DocumentTab) (path pname : pystr) : DocumentTab :=
  mkDocumentTab pname (content d) (Some path) false (data_type d)
    (data_raw d) (word_count d) (char_count d) (line_count d) (checksum d)
    (version d).

(** [DocumentTab.update_stats]; raises when the content cannot be
    encoded. *)
Definition update_stats `{Runtime} (d : DocumentTab) : result DocumentTab :=
  let chars := Z.of_nat (length (content d)) in
  let words := Z.of_nat (length (str_split_ws (content d))) in
  let lines := Z.of_nat (length (split_char 10 (content d))) in
  match str_encode (content d) with
  | Ok bs =>
      Ok (mkDocumentTab (name d) (content d) (file_path d) (modified d)
            (data_type d) (data_raw d) words chars lines (md5_hexdigest bs)
            (version d))
  | Raise e => Raise e
  end.

(** [DocumentTab(name, content, file_path)]: the dataclass defaults, then
    [__post_init__]. *)
Definition DocumentTab_new `{Runtime}
    (name content : pystr) (file_path : option pystr) : result DocumentTab :=
  let d := mkDocumentTab name content file_path false (py "raw") []
             0 0 0 [] 1 in
  let d := match data_raw d with
           | [] => set_data_raw d (utf8_encode_replace content)
           | _ :: _ => d
           end in
  update_stats d.

(** ** The world outside the program

    One value of [World] fixes what the environment answers during one
    operation. *)

Inductive ClipboardRead :=
| ClipText (s : pystr)
| ClipUnavailable
| ClipRaise (e : Exn).

Record World := mkWorld {
  (** [Path(filename).expanduser().resolve()] *)
  resolve : pystr -> result pystr;
  (** [path.exists()] *)
  path_exists : pystr -> bool;
  (** [path.read_text(encoding='utf-8', errors='replace')] *)
  read_text : pystr -> result pystr;
  (** [open(path, 'w')], which creates the file or empties it: [None]
      when it is open, else the exception *)
  fs_open : pystr -> option Exn;
  (** writing octets to the open file and closing it: [None] when
      written, else the exception *)
  fs_write : pystr -> pybytes -> option Exn;
  (** [self.db.save_document(doc)]: [None] when the row is written *)
  db_write : DocumentTab -> option Exn;
  (** the results of the successive calls of [input()] *)
  stdin : list (result pystr);
  (** reading the system clipboard *)
  clipboard : ClipboardRead;
  (** the text obtained from a URL, already decoded and stripped of HTML *)
  fetch_text : pystr -> result pystr
}.

Global Instance result_ret : MRet result := fun A a => Ok a.
Global Instance result_bind : MBind result :=
  fun A B f r => match r with Ok a => f a | Raise e => Raise e end.

Definition eof_error : Exn := mkExn EOFError [].
Definition index_error : Exn := mkExn IndexError (py "list index out of range").

(** [input()]: past the end of the terminal input it raises [EOFError]. *)
Definition input (w : World) : result pystr :=
  match stdin w with
  | [] => Raise eof_error
  | r :: _ => r
  end.

(** The loop [while True: lines.append(input())] left by [EOFError]. *)
Fixpoint read_lines (inp : list (result pystr)) : result (list pystr) :=
  match inp with
  | [] => Ok []
  | Ok line :: rest =>
      match read_lines rest with
      | Ok lines => Ok (line :: lines)
      | Raise e => Raise e
      end
  | Raise e :: _ =>
      match exn_kind e with
      | EOFError => Ok []
      | _ => Raise e
      end
  end.

(** What a call of [path.write_text] leaves of the file: nothing of it
    is touched when it cannot be opened; once open it is empty, and it
    holds the octets written, or some of them when the write fails. *)
Inductive FileAfter :=
| Untouched
| Holds (data : pybytes)
| Incomplete.

(** [path.write_text(content, encoding='utf-8')]: the file is opened
    first, then the content is encoded and written.  The exception raised,
    if any, and what is left of the file. *)
Definition path_write_text (w : World) (path content : pystr)
  : option Exn * FileAfter :=
  match fs_open w path with
  | Some e => (Some e, Untouched)
  | None =>
      match utf8_encode content with
      | None => (Some (encode_error content), Holds [])
      | Some bs =>
          match fs_write w path bs with
          | None => (None, Holds bs)
          | Some e => (Some e, Incomplete)
          end
      end
  end.

(** The exception that [path.write_text(content, encoding='utf-8')]
    raises; [None] when the file is written. *)
Definition write_text (w : World) (path content : pystr) : option Exn :=
  fst (path_write_text w path content).

(** [path.name]: the last component of a path. *)
Definition path_name (p : pystr) : pystr := default [] (last (split_char 47 p)).

(** [l[i]] with Python's reading of negative indices. *)
Definition getitem {A} (l : list A) (i : Z) : result A :=
  let n := Z.of_nat (length l) in
  let j := if i <? 0 then i + n else i in
  if (0 <=? j) && (j <? n)
  then match l !! Z.to_nat j with Some a => Ok a | None => Raise index_error end
  else Raise index_error.

(** ** CopyAppTUI *)

Record CopyAppTUI := mkApp {
  documents : list DocumentTab;
  current_doc_index : Z;
  snippets : list pystr
}.

(** What an operation prints. *)
Inductive Msg :=
| FileNotFound (filename : pystr)
| Opened (pname : pystr) (chars : Z)
| ErrorOpening (e : pystr)
| AskFilename
| NoFilename
| Saved (path : pystr)
| ErrorSaving (e : pystr)
| Editing (doc_name doc_content : pystr)
| EditCancelled
| DocumentUpdated
| NoChanges
| Replaced (count : Z) (find : pystr)
| NoMatches (find : pystr)
| NoSnippets
| SnippetAdded
| SnippetInserted
| SnippetDeleted
| InvalidSnippet
| ClipboardCreated (chars : Z)
| ClipboardEmpty
| ClipboardMissing
| PasteFailed (e : pystr)
| Fetching (url : pystr)
| Fetched (chars : Z)
| FetchFailed (e : pystr)
| Created (doc_name : pystr)
| Switched (doc_name : pystr)
| InvalidDocument (count : Z)
| InvalidNumber
| CannotCloseLast
| AskCloseAnyway (doc_name : pystr)
| CloseCancelled
| Closed (doc_name : pystr).

(** The state an operation leaves, what it printed, and the exception it
    let through to its caller, if any. *)
Record Outcome := mkOutcome {
  app_after : CopyAppTUI;
  printed : list Msg;
  raised : option Exn
}.

Definition returns (app : CopyAppTUI) (out : list Msg) : Outcome :=
  mkOutcome app out None.

Definition raises (app : CopyAppTUI) (out : list Msg) (e : Exn) : Outcome :=
  mkOutcome app out (Some e).

Definition len {A} (l : list A) : Z := Z.of_nat (length l).

Definition in_range {A} (idx : Z) (l : list A) : bool :=
  (0 <=? idx) && (idx <? len l).

(** [CopyAppTUI.__init__]: one empty document; the snippets are what
    [load_snippets] found. *)
Definition CopyAppTUI_init `{Runtime} (loaded : list pystr)
  : result CopyAppTUI :=
  doc ← DocumentTab_new (py "Untitled") [] None;
  Ok (mkApp [doc] 0 loaded).

(** [CopyAppTUI.get_current_document] *)
Definition get_current_document (app : CopyAppTUI) : result DocumentTab :=
  if in_range (current_doc_index app) (documents app)
  then getitem (documents app) (current_doc_index app)
  else getitem (documents app) 0.

(** The place in [documents] of the object [get_current_document]
    returns; assignments to its attributes change the list there. *)
Definition current_pos (app : CopyAppTUI) : nat :=
  if in_range (current_doc_index app) (documents app)
  then Z.to_nat (current_doc_index app)
  else 0%nat.

Definition set_document (app : CopyAppTUI) (i : nat) (d : DocumentTab)
  : CopyAppTUI :=
  mkApp (<[i := d]> (documents app)) (current_doc_index app) (snippets app).

(** [self.documents.append(doc); self.current_doc_index = len(self.documents) - 1] *)
Definition append_document (app : CopyAppTUI) (d : DocumentTab) : CopyAppTUI :=
  let docs := documents app ++ [d] in
  mkApp docs (len docs - 1) (snippets app).

(** The body of a [try] whose handler is [except Exception as e]: the
    handler prints [report e] and the state is the one before the body. *)
Definition except_Exception (app : CopyAppTUI) (report : pystr -> Msg)
    (body : result (CopyAppTUI * list Msg)) : Outcome :=
  match body with
  | Ok (app', out) => returns app' out
  | Raise e =>
      if is_Exception e then returns app [report (exn_str e)]
      else raises app [] e
  end.

(** [CopyAppTUI.open_file] *)
Definition open_file `{Runtime} (w : World) (filename : pystr)
    (app : CopyAppTUI) : Outcome :=
  except_Exception app ErrorOpening
    (path ← resolve w filename;
     if negb (path_exists w path) then Ok (app, [FileNotFound filename])
     else
       text ← read_text w path;
       doc ← DocumentTab_new (path_name path) text (Some path);
       Ok (append_document app doc, [Opened (path_name path) (len text)])).

(** The [try] block of [save_file]. *)
Definition save_to (w : World) (app : CopyAppTUI) (doc : DocumentTab)
    (path : pystr) (out : list Msg) : Outcome :=
  match write_text w path (content doc) with
  | None =>
      returns (set_document app (current_pos app)
                 (set_saved doc path (path_name path)))
        (out ++ [Saved path])
  | Some e =>
      if is_Exception e then returns app (out ++ [ErrorSaving (exn_str e)])
      else raises app out e
  end.

(** [CopyAppTUI.save_file] *)
Definition save_file `{Runtime} (w : World) (filename : option pystr)
    (app : CopyAppTUI) : Outcome :=
  match get_current_document app with
  | Raise e => raises app [] e
  | Ok doc =>
      match filename with
      | Some (c :: f) =>
          match resolve w (c :: f) with
          | Ok path => save_to w app doc path []
          | Raise e => raises app [] e
          end
      | _ =>
          match file_path doc with
          | Some path => save_to w app doc path []
          | None =>
              match input w with
              | Raise e => raises app [AskFilename] e
              | Ok typed =>
                  match str_strip typed with
                  | [] => returns app [AskFilename; NoFilename]
                  | c :: f =>
                      match resolve w (c :: f) with
                      | Ok path => save_to w app doc path [AskFilename]
                      | Raise e => raises app [AskFilename] e
                      end
                  end
              end
          end
      end
  end.

(** The assignments [doc.content = new_content; doc.modified = True;
    doc.data_raw = new_content.encode()] shared by the editing
    operations; the last one can raise after the first two are done. *)
Definition assign_content (app : CopyAppTUI) (i : nat) (doc : DocumentTab)
    (new_content : pystr) (out ok : list Msg) : Outcome :=
  let doc1 := set_modified (set_content doc new_content) true in
  match str_encode new_content with
  | Ok bs => returns (set_document app i (set_data_raw doc1 bs)) (out ++ ok)
  | Raise e => raises (set_document app i doc1) out e
  end.

(** [CopyAppTUI.edit_document] *)
Definition edit_document (w : World) (app : CopyAppTUI) : Outcome :=
  match get_current_document app with
  | Raise e => raises app [] e
  | Ok doc =>
      let out := [Editing (name doc) (content doc)] in
      match read_lines (stdin w) with
      | Raise e =>
          match exn_kind e with
          | KeyboardInterrupt => returns app (out ++ [EditCancelled])
          | _ => raises app out e
          end
      | Ok lines =>
          let new_content := str_join [10] lines in
          if bool_decide (new_content = content doc)
          then returns app (out ++ [NoChanges])
          else assign_content app (current_pos app) doc new_content out
                 [DocumentUpdated]
      end
  end.

(** [CopyAppTUI.replace_in_document] *)
Definition replace_in_document (find_text replace_text : pystr)
    (app : CopyAppTUI) : Outcome :=
  match get_current_document app with
  | Raise e => raises app [] e
  | Ok doc =>
      let old_content := content doc in
      let new_content := str_replace old_content find_text replace_text in
      if bool_decide (new_content = old_content)
      then returns app [NoMatches find_text]
      else
        let count := Z.of_nat (str_count old_content find_text) in
        assign_content app (current_pos app) doc new_content []
          [Replaced count find_text]
  end.

(** The choices of [CopyAppTUI.manage_snippets] that change something:
    2 (add), 3 (use) and 4 (delete).  Each is one pass of its loop. *)
Definition snippet_add `{Runtime} (w : World) (app : CopyAppTUI) : Outcome :=
  match read_lines (stdin w) with
  | Raise e =>
      match exn_kind e with
      | KeyboardInterrupt => returns app []
      | _ => raises app [] e
      end
  | Ok lines =>
      let snippet := str_join [10] lines in
      if truthy (str_strip snippet)
      then returns (mkApp (documents app) (current_doc_index app)
                      (snippets app ++ [snippet])) [SnippetAdded]
      else returns app []
  end.

Definition snippet_use `{Runtime} (w : World) (app : CopyAppTUI) : Outcome :=
  match snippets app with
  | [] => returns app [NoSnippets]
  | _ :: _ =>
      match input w with
      | Raise e =>
          match exn_kind e with
          | ValueError | KeyboardInterrupt => returns app []
          | _ => raises app [] e
          end
      | Ok typed =>
          match int_of_str typed with
          | None => returns app []
          | Some n =>
              let idx := n - 1 in
              if in_range idx (snippets app) then
                match get_current_document app, getitem (snippets app) idx with
                | Ok doc, Ok snippet =>
                    let doc1 := set_content doc (content doc ++ [10] ++ snippet) in
                    returns (set_document app (current_pos app)
                               (set_modified doc1 true))
                      [SnippetInserted]
                | Raise e, _ | _, Raise e =>
                    match exn_kind e with
                    | ValueError | KeyboardInterrupt => returns app []
                    | _ => raises app [] e
                    end
                end
              else returns app [InvalidSnippet]
          end
      end
  end.

Definition snippet_delete `{Runtime} (w : World) (app : CopyAppTUI) : Outcome :=
  match snippets app with
  | [] => returns app [NoSnippets]
  | _ :: _ =>
      match input w with
      | Raise e =>
          match exn_kind e with
          | ValueError | KeyboardInterrupt => returns app []
          | _ => raises app [] e
          end
      | Ok typed =>
          match int_of_str typed with
          | None => returns app []
          | Some n =>
              let idx := n - 1 in
              if in_range idx (snippets app)
              then returns (mkApp (documents app) (current_doc_index app)
                              (delete (Z.to_nat idx) (snippets app)))
                     [SnippetDeleted]
              else returns app [InvalidSnippet]
          end
      end
  end.

(** [CopyAppTUI.paste_from_clipboard] *)
Definition paste_from_clipboard `{Runtime} (w : World) (app : CopyAppTUI)
  : Outcome :=
  match clipboard w with
  | ClipUnavailable => returns app [ClipboardMissing]
  | ClipRaise e =>
      except_Exception app PasteFailed (Raise e)
  | ClipText [] => returns app [ClipboardEmpty]
  | ClipText text =>
      except_Exception app PasteFailed
        (doc ← DocumentTab_new
                 (py "Clipboard-" ++ str_of_nat (length (documents app) + 1))
                 text None;
         Ok (append_document app doc, [ClipboardCreated (len text)]))
  end.

(** [CopyAppTUI.fetch_url] *)
Definition fetch_url `{Runtime} (w : World) (url : pystr) (app : CopyAppTUI)
  : Outcome :=
  let url :=
    if startswith (py "http://") url || startswith (py "https://") url
    then url else py "https://" ++ url in
  match fetch_text w url with
  | Raise e =>
      if is_Exception e
      then returns app [Fetching url; FetchFailed (exn_str e)]
      else raises app [Fetching url] e
  | Ok text =>
      match DocumentTab_new
              (py "URL-" ++ default [] (last (split_char 47 url))) text None
      with
      | Raise e =>
          if is_Exception e
          then returns app [Fetching url; FetchFailed (exn_str e)]
          else raises app [Fetching url] e
      | Ok doc =>
          returns (append_document app (set_data_type doc (py "html")))
            [Fetching url; Fetched (len text)]
      end
  end.

(** The command [new] of [CopyAppTUI.run] *)
Definition new_document `{Runtime} (app : CopyAppTUI) : Outcome :=
  match DocumentTab_new
          (py "Untitled-" ++ str_of_nat (length (documents app) + 1)) [] None
  with
  | Ok doc => returns (append_document app doc) [Created (name doc)]
  | Raise e => raises app [] e
  end.

(** [CopyAppTUI.switch_document] *)
Definition switch_document `{Runtime} (index : pystr) (app : CopyAppTUI)
  : Outcome :=
  match int_of_str index with
  | None => returns app [InvalidNumber]
  | Some n =>
      let idx := n - 1 in
      if in_range idx (documents app) then
        match getitem (documents app) idx with
        | Ok doc =>
            returns (mkApp (documents app) idx (snippets app))
              [Switched (name doc)]
        | Raise e => raises (mkApp (documents app) idx (snippets app)) [] e
        end
      else returns app [InvalidDocument (len (documents app))]
  end.

(** [self.documents.pop(idx)] and the adjustment of the cursor that
    follows it in [close_document]. *)
Definition pop_document (app : CopyAppTUI) (idx : Z) : CopyAppTUI :=
  mkApp (delete (Z.to_nat idx) (documents app))
    (if idx <=? current_doc_index app
     then Z.max 0 (current_doc_index app - 1)
     else current_doc_index app)
    (snippets app).

(** [CopyAppTUI.close_document] *)
Definition close_document `{Runtime} (w : World) (index : option pystr)
    (app : CopyAppTUI) : Outcome :=
  if len (documents app) <=? 1 then returns app [CannotCloseLast]
  else
    let target :=
      match index with
      | Some s => (fun n => n - 1) <$> int_of_str s
      | None => Some (current_doc_index app)
      end in
    match target with
    | None => returns app [InvalidNumber]
    | Some idx =>
        if in_range idx (documents app) then
          match getitem (documents app) idx with
          | Raise e => raises app [] e
          | Ok doc =>
              if modified doc then
                match input w with
                | Raise e => raises app [AskCloseAnyway (name doc)] e
                | Ok response =>
                    if bool_decide (str_lower response = py "y")
                    then returns (pop_document app idx)
                           [AskCloseAnyway (name doc); Closed (name doc)]
                    else returns app
                           [AskCloseAnyway (name doc); CloseCancelled]
                end
              else returns (pop_document app idx) [Closed (name doc)]
          end
        else returns app [InvalidDocument (len (documents app))]
    end.

(** [CopyAppGUI.on_text_changed]: the editor widget holds [new_content]. *)
Definition on_text_changed (new_content : pystr) (app : CopyAppTUI)
  : Outcome :=
  if in_range (current_doc_index app) (documents app) then
    match getitem (documents app) (current_doc_index app) with
    | Raise e => raises app [] e
    | Ok doc =>
        if bool_decide (new_content = content doc) then returns app []
        else assign_content app (Z.to_nat (current_doc_index app)) doc
               new_content [] []
    end
  else returns app [].

(** [CopyAppGUI.switch_document] *)
Definition gui_switch_document (index : Z) (app : CopyAppTUI) : Outcome :=
  if in_range index (documents app)
  then returns (mkApp (documents app) index (snippets app)) []
  else returns app [].

(** *** Commands that only read the store *)

(** [needle in hay] *)
Fixpoint str_contains (needle hay : pystr) : bool :=
  startswith needle hay
  || match hay with
     | [] => false
     | _ :: hay' => str_contains needle hay'
     end.

(** The list [matches] that the loop of [find_in_document] builds; [i] is
    the number of the first of [lines]. *)
Fixpoint find_matches `{Runtime} (search_text : pystr) (i : Z)
    (lines : list pystr) : list (Z * pystr) :=
  match lines with
  | [] => []
  | line :: rest =>
      (if str_contains (str_lower search_text) (str_lower line)
       then [(i, str_strip line)] else [])
      ++ find_matches search_text (i + 1) rest
  end.

(** What [find_in_document] prints: the number of matches, the first ten
    of them and the number of those left out, or that there is none. *)
Inductive FindReport :=
| Found (total : Z) (search_text : pystr) (shown : list (Z * pystr))
    (more : option Z)
| NotFound (search_text : pystr).

(** [CopyAppTUI.find_in_document] *)
Definition find_in_document `{Runtime} (search_text : pystr)
    (app : CopyAppTUI) : result FindReport :=
  doc ← get_current_document app;
  let matches := find_matches search_text 1 (split_char 10 (content doc)) in
  Ok (match matches with
      | [] => NotFound search_text
      | _ :: _ =>
          Found (len matches) search_text (take 10 matches)
            (if 10 <? len matches then Some (len matches - 10) else None)
      end).

(** A line of [list_documents]: whether it carries the marker of the
    current document, then the number, the name, the modified mark and
    the number of characters it shows. *)
Record Listing := mkListing {
  listing_marker : bool;
  listing_number : Z;
  listing_name : pystr;
  listing_modified : bool;
  listing_chars : Z
}.

(** [CopyAppTUI.list_documents] *)
Definition list_documents (app : CopyAppTUI) : list Listing :=
  imap (fun i doc =>
          mkListing (bool_decide (Z.of_nat i = current_doc_index app))
            (Z.of_nat i + 1) (name doc) (modified doc) (len (content doc)))
    (documents app).

(** [CopyAppTUI.save_history]: the list it leaves in [self.history], an
    item being its [data] and [kind]; the write of the history file that
    follows hides every failure. *)
Definition save_history (data kind : pystr) (history : list (pystr * pystr))
  : list (pystr * pystr) :=
  take 100 ((data, kind) :: history).

(** *** The background checkpoint *)

(** What one pass of [perform_auto_save] leaves outside the program. *)
Inductive Effect :=
| WroteBackup (file : pystr) (data : pystr)
| SavedRow (d : DocumentTab)
| SpoiltBackup (file : pystr) (after : FileAfter).

(** [f"autosave_{i}_{timestamp}.txt"] in [AUTOSAVE_DIR] *)
Definition autosave_file (i : nat) (timestamp : pystr) : pystr :=
  py "autosave_" ++ str_of_nat i ++ py "_" ++ timestamp ++ py ".txt".

(** The body of the loop of [perform_auto_save] for the document at
    position [i]; its [except: pass] hides every failure, but a write
    that fails once the file is open leaves the file spoilt. *)
Definition auto_save_document `{Runtime} (w : World) (timestamp : pystr)
    (i : nat) (doc : DocumentTab) : list Effect :=
  if modified doc && truthy (str_strip (content doc)) then
    match path_write_text w (autosave_file i timestamp) (content doc) with
    | (None, _) =>
        WroteBackup (autosave_file i timestamp) (content doc)
        :: match db_write w doc with
           | None => [SavedRow doc]
           | Some _ => []
           end
    | (Some _, Untouched) => []
    | (Some _, after) =>
        [SpoiltBackup (autosave_file i timestamp) after]
    end
  else [].

(** [CopyAppTUI.perform_auto_save]: the state it leaves and what it
    wrote. *)
Definition perform_auto_save `{Runtime} (w : World) (timestamp : pystr)
    (app : CopyAppTUI) : CopyAppTUI * list Effect :=
  (app,
   concat (imap (auto_save_document w timestamp) (documents app))).

(** *** Commands *)

(** The operations that can change the store: the commands of
    [CopyAppTUI.run], the slots of [CopyAppGUI] and the checkpoint tick.
    The other commands ([show], [find], [list], [stats], [export], [copy],
    [history], [analyze], [backup], [report], ...) only read it. *)
Inductive Command :=
| CmdOpen (filename : pystr)
| CmdSave (filename : option pystr)
| CmdNew
| CmdSwitch (index : pystr)
| CmdClose (index : option pystr)
| CmdEdit
| CmdReplace (find_text replace_text : pystr)
| CmdSnippetAdd
| CmdSnippetUse
| CmdSnippetDelete
| CmdPaste
| CmdUrl (url : pystr)
| GuiTextChanged (new_content : pystr)
| GuiSwitch (index : Z)
| AutoSaveTick (timestamp : pystr).

Definition step `{Runtime} (w : World) (c : Command) (app : CopyAppTUI)
  : Outcome :=
  match c with
  | CmdOpen f => open_file w f app
  | CmdSave f => save_file w f app
  | CmdNew => new_document app
  | CmdSwitch i => switch_document i app
  | CmdClose i => close_document w i app
  | CmdEdit => edit_document w app
  | CmdReplace f r => replace_in_document f r app
  | CmdSnippetAdd => snippet_add w app
  | CmdSnippetUse => snippet_use w app
  | CmdSnippetDelete => snippet_delete w app
  | CmdPaste => paste_from_clipboard w app
  | CmdUrl u => fetch_url w u app
  | GuiTextChanged t => on_text_changed t app
  | GuiSwitch i => gui_switch_document i app
  | AutoSaveTick t => returns (fst (perform_auto_save w t app)) []
  end.

(** The states of a run: the one [__init__] builds and those that the
    operations lead to, whether they return or raise. *)
Inductive reachable `{Runtime} : CopyAppTUI -> Prop :=
| reachable_init loaded app :
    CopyAppTUI_init loaded = Ok app -> reachable app
| reachable_step w c app :
    reachable app -> reachable (app_after (step w c app)).

(** ** TextProcessor *)

(** The table [patterns] of [detect_language], in the order it is
    written. *)
Definition patterns : list (pystr * list pystr) :=
  [ (py "python",
      [py "#!/usr/bin/env python"; py "import \w+"; py "def \w+\(";
       py "class \w+:"]);
    (py "javascript",
      [py "function \w+\("; py "const \w+"; py "=> {"; py "console\.log"]);
    (py "html", [py "<html>"; py "<div"; py "<script>"; py "<!DOCTYPE"]);
    (py "css", [py "\w+\s*{"; py "@media"; py "#\w+"; py "\.\w+"]);
    (py "markdown",
      [py "^#+\s"; py "\[.*\]\(.*\)"; py "^\*\s"; py "^-\s"]);
    (py "json",
      [py "^\s*{"; [34] ++ py "\w+" ++ [34] ++ py "\s*:"; py "\[\s*{"]);
    (py "xml", [py "<\?xml"; py "<\w+[^>]*>"; py "</\w+>"]);
    (py "sql",
      [py "SELECT\s+"; py "INSERT\s+INTO"; py "UPDATE\s+";
       py "CREATE\s+TABLE"]);
    (py "bash", [py "#!/bin/bash"; py "#!/bin/sh"; py "\$\w+"; py "if \["]) ].

(** The inner loop: one point for each pattern found. *)
Definition language_score `{Runtime} (content_lower : pystr)
    (regexes : list pystr) : Z :=
  fold_left
    (fun score pattern =>
       if re_search pattern content_lower then score + 1 else score)
    regexes 0.

(** The dictionary [scores] after the outer loop; the languages of the
    table are distinct, so its items are the table's entries in order. *)
Definition language_scores `{Runtime} (content : pystr) : list (pystr * Z) :=
  let content_lower := str_lower content in
  map (fun entry => (fst entry, language_score content_lower (snd entry)))
    patterns.

(** [max(items, key=lambda x: x[1])]: an item replaces the best one so far
    only when its key is greater; [None] is the [ValueError] of an empty
    sequence. *)
Definition max_by_score (items : list (pystr * Z)) : option (pystr * Z) :=
  match items with
  | [] => None
  | x :: rest =>
      Some (fold_left
              (fun best item => if snd best <? snd item then item else best)
              rest x)
  end.

(** [max(values)] *)
Definition max_value (values : list Z) : option Z :=
  match values with
  | [] => None
  | x :: rest =>
      Some (fold_left (fun best v => if best <? v then v else best) rest x)
  end.

Definition value_error : Exn := mkExn ValueError [].

(** [TextProcessor.detect_language] *)
Definition detect_language `{Runtime} (content : pystr) : result pystr :=
  let scores := language_scores content in
  match max_value (map snd scores) with
  | None => Raise value_error
  | Some m =>
      if 0 <? m then
        match max_by_score scores with
        | None => Raise value_error
        | Some best => Ok (fst best)
        end
      else Ok (py "text")
  end.

(** [s.lstrip()] *)
Fixpoint str_lstrip `{Runtime} (s : pystr) : pystr :=
  match s with
  | [] => []
  | c :: s' => if isspace c then str_lstrip s' else s
  end.

(** [s.rstrip()] *)
Definition str_rstrip `{Runtime} (s : pystr) : pystr :=
  rev (str_lstrip (rev s)).

(** The loop of [clean_whitespace] over the lines: a line that is blank
    becomes [''] unless the line before it was blank too. *)
Fixpoint collapse_blank `{Runtime} (prev_empty : bool) (lines : list pystr)
  : list pystr :=
  match lines with
  | [] => []
  | line :: rest =>
      if bool_decide (str_strip line = [])
      then (if prev_empty then [] else [[]]) ++ collapse_blank true rest
      else line :: collapse_blank false rest
  end.

(** [TextProcessor.clean_whitespace] *)
Definition clean_whitespace `{Runtime} (content : pystr) : pystr :=
  str_join [10]
    (collapse_blank false (map str_rstrip (split_char 10 content))).

(** [TextProcessor.reading_time]; [None] is the [ZeroDivisionError] of
    [word_count // 0]. *)
Definition reading_time `{Runtime} (content : pystr) (wpm : Z) : option Z :=
  let word_count := len (str_split_ws content) in
  if wpm =? 0 then None else Some (Z.max 1 (word_count / wpm)).

(** ** CryptoManager *)

(** [sum(ord(c) for c in password) % 26] *)
Definition shift_of (password : pystr) : Z := fold_right Z.add 0 password mod 26.

(** One character of [encrypt_content]. *)
Definition encrypt_char `{Runtime} (shift c : Z) : Z :=
  if islower c then (c - 97 + shift) mod 26 + 97
  else if isupper c then (c - 65 + shift) mod 26 + 65
  else c.

(** One character of [decrypt_content]. *)
Definition decrypt_char `{Runtime} (shift c : Z) : Z :=
  if islower c then (c - 97 - shift) mod 26 + 97
  else if isupper c then (c - 65 - shift) mod 26 + 65
  else c.

(** [bs.decode()] as a call that can raise. *)
Definition bytes_decode (bs : pybytes) : result pystr :=
  match utf8_decode bs with
  | Some s => Ok s
  | None => Raise (mkExn UnicodeDecodeError [])
  end.

(** [base64.b64decode(bs)] as a call that can raise. *)
Definition base64_b64decode (bs : pybytes) : result pybytes :=
  match b64decode bs with
  | Some r => Ok r
  | None => Raise (mkExn BinasciiError [])
  end.

(** [CryptoManager.encrypt_content] *)
Definition encrypt_content `{Runtime} (content password : pystr)
  : result pystr :=
  let shift := shift_of password in
  let encrypted := map (encrypt_char shift) content in
  bs ← str_encode encrypted;
  bytes_decode (b64encode bs).

Definition decryption_failed : pystr := py "[Decryption failed]".

(** [CryptoManager.decrypt_content]: the bare [except] turns every
    exception of the body into the sentinel. *)
Definition decrypt_content `{Runtime} (encrypted password : pystr) : pystr :=
  let body :=
    let shift := shift_of password in
    bs ← str_encode encrypted;
    raw ← base64_b64decode bs;
    decoded ← bytes_decode raw;
    Ok (map (decrypt_char shift) decoded) in
  match body with
  | Ok s => s
  | Raise _ => decryption_failed
  end.

(** ** NetworkManager *)

(** What a worker gets for its request: the octets read, or the
    [Exception] that [urlopen] or [read] raised (a timeout among them),
    with its text. *)
Inductive Response :=
| Body (bs : pybytes)
| Failed (message : pystr).

(** The local function [fetch_single]; [net i url] is the answer to the
    request of the [i]-th submitted task. *)
Definition fetch_single `{Runtime} (net : nat -> pystr -> Response)
    (i : nat) (url : pystr) : pystr * pystr :=
  match net i url with
  | Body bs =>
      (url, match utf8_decode bs with
            | Some decoded => decoded
            | None => utf8_decode_replace bs
            end)
  | Failed message => (url, py "Error: " ++ message)
  end.

(** The body of the loop over the completed tasks: [results[url] =
    content] for the task [i]. *)
Definition collect `{Runtime} (net : nat -> pystr -> Response) (urls : list pystr)
    (results : gmap pystr pystr) (i : nat) : gmap pystr pystr :=
  match urls !! i with
  | Some u => let (url, text) := fetch_single net i u in <[url := text]> results
  | None => results
  end.

(** [NetworkManager.fetch_multiple_urls].  One task is submitted per
    element of [urls]; [schedule] lists the tasks in the order in which
    [as_completed] yields them.  [ThreadPoolExecutor] refuses a pool
    without workers. *)
Definition fetch_multiple_urls `{Runtime} (net : nat -> pystr -> Response)
    (schedule : list nat) (urls : list pystr) (max_workers : Z)
  : result (gmap pystr pystr) :=
  if max_workers <=? 0
  then Raise (mkExn ValueError (py "max_workers must be greater than 0"))
  else
    Ok (fold_left (collect net urls) schedule ∅).

(** ** A runtime to run the model on examples

    The character tables are those of Unicode for the code points below
    U+0100 (the white space table is complete); above, a code point is
    taken as caseless.  [int] reads an optionally signed ASCII numeral
    between white space, lossy decoding replaces every octet it cannot
    read, and a pattern is searched as a literal. *)

Definition latin1_islower (c : Z) : bool :=
  ((97 <=? c) && (c <=? 122)) || (c =? 0xAA) || (c =? 0xB5) || (c =? 0xBA)
  || ((0xDF <=? c) && (c <=? 0xF6)) || ((0xF8 <=? c) && (c <=? 0xFF)).

Definition latin1_isupper (c : Z) : bool :=
  ((65 <=? c) && (c <=? 90)) || ((0xC0 <=? c) && (c <=? 0xD6))
  || ((0xD8 <=? c) && (c <=? 0xDE)).

Definition unicode_isspace (c : Z) : bool :=
  ((9 <=? c) && (c <=? 13)) || ((0x1C <=? c) && (c <=? 0x20))
  || (c =? 0x85) || (c =? 0xA0) || (c =? 0x1680)
  || ((0x2000 <=? c) && (c <=? 0x200A)) || (c =? 0x2028) || (c =? 0x2029)
  || (c =? 0x202F) || (c =? 0x205F) || (c =? 0x3000).

Definition latin1_lower (s : pystr) : pystr :=
  map (fun c => if latin1_isupper c then c + 32 else c) s.

Fixpoint digits_value (acc : Z) (s : pystr) : option Z :=
  match s with
  | [] => Some acc
  | c :: s' =>
      if (48 <=? c) && (c <=? 57) then digits_value (10 * acc + (c - 48)) s'
      else None
  end.

Definition ascii_int (s : pystr) : option Z :=
  let dropl := fix dropl (s : pystr) : pystr :=
    match s with
    | [] => []
    | c :: s' => if unicode_isspace c then dropl s' else s
    end in
  match rev (dropl (rev (dropl s))) with
  | [] => None
  | [c] => digits_value 0 [c]
  | c :: d :: s' =>
      if c =? 45 then Z.opp <$> digits_value 0 (d :: s')
      else if c =? 43 then digits_value 0 (d :: s')
      else digits_value 0 (c :: d :: s')
  end.

Fixpoint decode_replace_fuel (fuel : nat) (bs : pybytes) : pystr :=
  match fuel, bs with
  | O, _ | _, [] => []
  | S f, b :: r =>
      match utf8_decode (firstn 1 bs), utf8_decode (firstn 2 bs),
            utf8_decode (firstn 3 bs), utf8_decode (firstn 4 bs) with
      | Some s, _, _, _ => s ++ decode_replace_fuel f r
      | _, Some s, _, _ => s ++ decode_replace_fuel f (skipn 2 bs)
      | _, _, Some s, _ => s ++ decode_replace_fuel f (skipn 3 bs)
      | _, _, _, Some s => s ++ decode_replace_fuel f (skipn 4 bs)
      | _, _, _, _ => 0xFFFD :: decode_replace_fuel f r
      end
  end.

Fixpoint literal_search (pattern s : pystr) : bool :=
  startswith pattern s
  || match s with
     | [] => false
     | _ :: s' => literal_search pattern s'
     end.

#[export] Instance example_runtime : Runtime.
Proof.
  refine {| islower := latin1_islower;
            isupper := latin1_isupper;
            isspace := unicode_isspace;
            str_lower := latin1_lower;
            int_of_str := ascii_int;
            utf8_decode_replace := fun bs => decode_replace_fuel (length bs) bs;
            re_search := literal_search |}.
  - intros c Hc. unfold latin1_islower.
    destruct (97 <=? c) eqn:E1, (c <=? 122) eqn:E2; simpl; try reflexivity;
      repeat (apply orb_false_intro); try apply andb_false_intro1;
      try apply Z.eqb_neq; try apply Z.leb_gt; lia.
  - intros c Hc. unfold latin1_isupper.
    destruct (65 <=? c) eqn:E1, (c <=? 90) eqn:E2; simpl; try reflexivity;
      repeat (apply orb_false_intro); try apply andb_false_intro1;
      try apply Z.leb_gt; lia.
Defined.

(** ** Documents for examples *)

(** The document [DocumentTab(name, content)]. *)
Definition document_of `{Runtime} (name content : pystr) : DocumentTab :=
  match DocumentTab_new name content None with
  | Ok d => d
  | Raise _ => mkDocumentTab name content None false (py "raw") [] 0 0 0 [] 1
  end.

(** A store with one document of the given content. *)
Definition one_document (content : pystr) : CopyAppTUI :=
  mkApp [document_of (py "Untitled") content] 0 [].

(** A world in which every call succeeds: files exist and can be written,
    the terminal input is [typed], the clipboard and every URL hold
    ["text"]. *)
Definition quiet_world (typed : list pystr) : World :=
  mkWorld (fun f => Ok (py "/home/user/" ++ f)) (fun _ => true)
    (fun _ => Ok (py "text")) (fun _ => None) (fun _ _ => None)
    (fun _ => None)
    (map Ok typed) (ClipText (py "text")) (fun _ => Ok (py "text")).

(** A world in which files can be opened and nothing can be written. *)
Definition full_disk_world (typed : list pystr) : World :=
  mkWorld (fun f => Ok (py "/home/user/" ++ f)) (fun _ => true)
    (fun _ => Ok (py "text")) (fun _ => None)
    (fun _ _ => Some (mkExn OSError (py "[Errno 28] No space left on device")))
    (fun _ => Some (mkExn OSError (py "database or disk is full")))
    (map Ok typed) (ClipText (py "text")) (fun _ => Ok (py "text")).

(** A store of two documents, the second one current and modified. *)
Definition two_documents : CopyAppTUI :=
  app_after (edit_document (quiet_world [py "a"])
               (app_after (new_document (one_document [])))).

(** A network on which ["B"] times out. *)
Definition two_urls_net (i : nat) (url : pystr) : Response :=
  if bool_decide (url = py "B") then Failed (py "timed out")
  else Body (py "body of A").

(** ** How an operation may change the list of documents

    Nothing changes, or the document at one position is assigned to (its
    old and new value related by [R]), or a document satisfying [F] is
    appended, or one of at least two documents is removed. *)
Inductive documents_step (R : DocumentTab -> DocumentTab -> Prop)
    (F : DocumentTab -> Prop) (docs : list DocumentTab)
  : list DocumentTab -> Prop :=
| docs_same : documents_step R F docs docs
| docs_assign i d d' :
    docs !! i = Some d -> R d d' -> documents_step R F docs (<[i := d']> docs)
| docs_append d : F d -> documents_step R F docs (docs ++ [d])
| docs_pop i :
    (i < length docs)%nat -> (1 < length docs)%nat ->
    documents_step R F docs (delete i docs).

(** ** Notions used in the statements *)

(** What an assignment to a document that is open keeps: its version and
    its check sum; but for a save, a document that was modified stays
    so. *)
Definition kept (saving : bool) (d d' : DocumentTab) : Prop :=
  version d' = version d /\ checksum d' = checksum d
  /\ (saving = false -> modified d = true -> modified d' = true).

(** A document that enters the list was just built by [DocumentTab]. *)
Definition newly_built (d : DocumentTab) : Prop :=
  version d = 1 /\ modified d = false.

Definition is_save (c : Command) : bool :=
  match c with CmdSave _ => true | _ => false end.

Definition stays_modified (d d' : DocumentTab) : Prop :=
  modified d = true -> modified d' = true.

(** What [save_file] may do, for a document [doc] that is current. *)
Definition save_outcome (w : World) (app : CopyAppTUI) (out : Outcome) : Prop :=
  (exists doc path doc',
      get_current_document app = Ok doc
      /\ write_text w path (content doc) = None
      /\ last (printed out) = Some (Saved path) /\ raised out = None
      /\ get_current_document (app_after out) = Ok doc'
      /\ modified doc' = false /\ content doc' = content doc
      /\ file_path doc' = Some path)
  \/ (exists doc path e,
      get_current_document app = Ok doc
      /\ write_text w path (content doc) = Some e
      /\ app_after out = app
      /\ if is_Exception e
         then last (printed out) = Some (ErrorSaving (exn_str e))
              /\ raised out = None
         else raised out = Some e)
  \/ (app_after out = app
      /\ (raised out <> None \/ printed out = [AskFilename; NoFilename])).

(** The path [save_file] writes to and what it prints before it writes:
    the file name given, if it is not empty; else the path of the
    document; else the name typed at the prompt. *)
Definition saves_to `{Runtime} (w : World) (filename : option pystr)
    (doc : DocumentTab) (path : pystr) (prompt : list Msg) : Prop :=
  match filename with
  | Some (c :: f) => resolve w (c :: f) = Ok path /\ prompt = []
  | _ =>
      match file_path doc with
      | Some p => p = path /\ prompt = []
      | None =>
          exists typed c f,
            input w = Ok typed /\ str_strip typed = c :: f
            /\ resolve w (c :: f) = Ok path /\ prompt = [AskFilename]
      end
  end.

(** [best] is the first item of [items] with the greatest score, at
    position [i]. *)
Definition first_maximum (items : list (pystr * Z)) (i : nat)
    (best : pystr * Z) : Prop :=
  items !! i = Some best
  /\ (forall j item, items !! j = Some item -> snd item <= snd best)
  /\ (forall j item, items !! j = Some item -> (j < i)%nat ->
        snd item < snd best).

(** A character the cipher can take back: one that can be encoded and
    that, if the runtime sees a case in it, is an ASCII letter. *)
Definition plain `{Runtime} (c : Z) : Prop :=
  is_Some (utf8_encode_char c)
  /\ (islower c || isupper c = true -> is_ascii c).

(** The commands that assign to the current document. *)
Definition edits_document (c : Command) : bool :=
  match c with
  | CmdSave _ | CmdEdit | CmdReplace _ _ | CmdSnippetUse | GuiTextChanged _ =>
      true
  | _ => false
  end.

(** An assignment to the document at the cursor leaves the cursor, the
    snippets and the other documents as they are. *)
Definition only_current (app app' : CopyAppTUI) : Prop :=
  current_doc_index app' = current_doc_index app
  /\ snippets app' = snippets app
  /\ length (documents app') = length (documents app)
  /\ forall i : nat, i <> current_pos app ->
       documents app' !! i = documents app !! i.

(** A character of the output of [base64.b64encode]. *)
Definition is_b64 (c : Z) : Prop := is_Some (b64_value c) \/ c = 61.

(** * Properties *)

(** ** Replacing and counting *)

Lemma startswith_app (p r : pystr) : startswith p (p ++ r) = true.
Proof.
  induction p as [|a p IH]; simpl; [reflexivity|].
  by rewrite Z.eqb_refl, IH.
Qed.

Lemma startswith_inv (p s : pystr) :
  startswith p s = true -> exists r, s = p ++ r.
Proof.
  revert s. induction p as [|a p IH]; intros s Hs; simpl in *.
  - by exists s.
  - destruct s as [|b s]; [discriminate|].
    apply andb_true_iff in Hs as [Hab Hs]. apply Z.eqb_eq in Hab as ->.
    destruct (IH _ Hs) as [r ->]. by exists r.
Qed.

Lemma count_from_skip (find : pystr) (k : nat) (s : pystr) :
  count_from find k s = count_from find 0 (drop k s).
Proof.
  revert k. induction s as [|c s IH]; intros [|k]; simpl; try reflexivity.
  apply IH.
Qed.

Lemma replace_from_skip (find repl : pystr) (k : nat) (s : pystr) :
  replace_from find repl k s = replace_from find repl 0 (drop k s).
Proof.
  revert k. induction s as [|c s IH]; intros [|k]; simpl; try reflexivity.
  apply IH.
Qed.

Lemma count_from_match (f : Z) (find rest : pystr) :
  count_from (f :: find) 0 ((f :: find) ++ rest)
  = S (count_from (f :: find) 0 rest).
Proof.
  change (count_from (f :: find) 0 ((f :: find) ++ rest))
    with (if startswith (f :: find) ((f :: find) ++ rest)
          then S (count_from (f :: find) (length (f :: find) - 1) (find ++ rest))
          else count_from (f :: find) 0 (find ++ rest)).
  rewrite startswith_app, count_from_skip.
  replace (length (f :: find) - 1)%nat with (length find) by (simpl; lia).
  by rewrite drop_app_length.
Qed.

Lemma replace_from_match (f : Z) (find repl rest : pystr) :
  replace_from (f :: find) repl 0 ((f :: find) ++ rest)
  = repl ++ replace_from (f :: find) repl 0 rest.
Proof.
  change (replace_from (f :: find) repl 0 ((f :: find) ++ rest))
    with (if startswith (f :: find) ((f :: find) ++ rest)
          then repl ++ replace_from (f :: find) repl
                         (length (f :: find) - 1) (find ++ rest)
          else f :: replace_from (f :: find) repl 0 (find ++ rest)).
  rewrite startswith_app, replace_from_skip.
  replace (length (f :: find) - 1)%nat with (length find) by (simpl; lia).
  by rewrite drop_app_length.
Qed.

Lemma count_from_miss (find : pystr) (c : Z) (s : pystr) :
  startswith find (c :: s) = false ->
  count_from find 0 (c :: s) = count_from find 0 s.
Proof. intros Hm. simpl count_from. by rewrite Hm. Qed.

Lemma replace_from_miss (find repl : pystr) (c : Z) (s : pystr) :
  startswith find (c :: s) = false ->
  replace_from find repl 0 (c :: s) = c :: replace_from find repl 0 s.
Proof. intros Hm. simpl replace_from. by rewrite Hm. Qed.

(** The scan of a string for a non-empty pattern, as an induction
    principle: the string is empty, or begins with the pattern, or begins
    with a character at which the pattern does not match. *)
Lemma scan_ind (f : Z) (find : pystr) (P : pystr -> Prop) :
  P [] ->
  (forall rest, P rest -> P ((f :: find) ++ rest)) ->
  (forall c s, startswith (f :: find) (c :: s) = false -> P s -> P (c :: s)) ->
  forall s, P s.
Proof.
  intros Hnil Hhit Hmiss s.
  remember (length s) as n eqn:Hn. revert s Hn.
  induction n as [n IH] using lt_wf_ind. intros s Hn.
  destruct s as [|c s]; [exact Hnil|].
  destruct (startswith (f :: find) (c :: s)) eqn:Hm.
  - destruct (startswith_inv _ _ Hm) as [rest Hrest]. rewrite Hrest.
    apply Hhit. apply (IH (length rest)); [|reflexivity].
    subst n. rewrite Hrest. rewrite length_app. simpl. lia.
  - apply Hmiss; [exact Hm|]. apply (IH (length s)); [|reflexivity].
    subst n. simpl. lia.
Qed.

Lemma replace_from_length (f : Z) (find repl s : pystr) :
  len (replace_from (f :: find) repl 0 s)
  = len s + Z.of_nat (count_from (f :: find) 0 s) * (len repl - len (f :: find)).
Proof.
  unfold len.
  remember (Z.of_nat (length repl) - Z.of_nat (length (f :: find))) as d eqn:Hd.
  induction s as [|rest IH|c s Hm IH] using (scan_ind f find).
  - simpl. lia.
  - rewrite replace_from_match, count_from_match, !length_app.
    rewrite !Nat2Z.inj_add, Nat2Z.inj_succ. nia.
  - rewrite replace_from_miss, count_from_miss by exact Hm.
    rewrite !length_cons, !Nat2Z.inj_succ. lia.
Qed.

Lemma replace_from_none (f : Z) (find repl s : pystr) :
  count_from (f :: find) 0 s = 0%nat ->
  replace_from (f :: find) repl 0 s = s.
Proof.
  induction s as [|rest IH|c s Hm IH] using (scan_ind f find).
  - reflexivity.
  - rewrite count_from_match. discriminate.
  - rewrite replace_from_miss, count_from_miss by exact Hm.
    intros Hc. by rewrite IH.
Qed.

Lemma replace_from_same (f : Z) (find s : pystr) :
  replace_from (f :: find) (f :: find) 0 s = s.
Proof.
  induction s as [|rest IH|c s Hm IH] using (scan_ind f find).
  - reflexivity.
  - by rewrite replace_from_match, IH.
  - by rewrite replace_from_miss, IH.
Qed.

Lemma replace_from_fixed (f : Z) (find repl s : pystr) :
  replace_from (f :: find) repl 0 s = s ->
  count_from (f :: find) 0 s = 0%nat \/ f :: find = repl.
Proof.
  induction s as [|rest IH|c s Hm IH] using (scan_ind f find).
  - by left.
  - rewrite replace_from_match. intros Heq. right.
    assert (Hlen : length repl = length (f :: find)).
    { apply (f_equal len) in Heq. unfold len in Heq.
      rewrite !length_app in Heq.
      pose proof (replace_from_length f find repl rest) as Hl.
      unfold len in Hl. nia. }
    symmetry. by apply app_inj_1 in Heq as [? _].
  - rewrite replace_from_miss, count_from_miss by exact Hm.
    intros Heq. apply IH. congruence.
Qed.

Lemma flat_map_cons_length (repl s : pystr) :
  length (flat_map (fun c => c :: repl) s)
  = (length s + length s * length repl)%nat.
Proof. induction s as [|c s IH]; simpl; [reflexivity|]. rewrite length_app. lia. Qed.

Lemma flat_map_singleton (s : pystr) : flat_map (fun c => [c]) s = s.
Proof. induction s as [|c s IH]; simpl; congruence. Qed.

(** [s.replace(find, repl) == s] exactly when [find] does not occur in [s]
    or is its own replacement. *)
Lemma str_replace_fixed (s find repl : pystr) :
  str_replace s find repl = s <-> str_count s find = 0%nat \/ find = repl.
Proof.
  destruct find as [|f find]; simpl.
  - split.
    + intros Heq. right. apply (f_equal (@length Z)) in Heq.
      rewrite length_app, flat_map_cons_length in Heq.
      destruct repl; [reflexivity|]. simpl in Heq. lia.
    + intros [?| <-]; [discriminate|]. simpl. apply flat_map_singleton.
  - split.
    + apply replace_from_fixed.
    + intros [Hc| <-]; [by apply replace_from_none|apply replace_from_same].
Qed.

Lemma str_join_cons (sep p : pystr) (l : list pystr) :
  l <> [] -> str_join sep (p :: l) = p ++ sep ++ str_join sep l.
Proof. by destruct l. Qed.

Lemma str_join_chars (sep s : pystr) :
  str_join sep (map (fun c => [c]) s ++ [[]]) = flat_map (fun c => c :: sep) s.
Proof.
  induction s as [|c s IH]; [reflexivity|].
  change (str_join sep ([c] :: (map (fun c => [c]) s ++ [[]]))
          = c :: sep ++ flat_map (fun c => c :: sep) s).
  rewrite str_join_cons, IH; [reflexivity|]. by destruct s.
Qed.

(** The parts of [s] between the occurrences of [find] that the scan
    finds: [find.join(parts) == s]. *)
Lemma str_replace_parts (s find repl : pystr) :
  exists parts : list pystr,
    s = str_join find parts
    /\ str_replace s find repl = str_join repl parts
    /\ length parts = S (str_count s find).
Proof.
  destruct find as [|f find].
  - exists ([] :: (map (fun c => [c]) s ++ [[]])). simpl str_count.
    simpl str_replace.
    rewrite !str_join_cons, !str_join_chars by (by destruct s).
    rewrite length_cons, length_app, length_map. simpl.
    split; [by rewrite flat_map_singleton|split; [reflexivity|lia]].
  - simpl str_count. simpl str_replace.
    induction s as [|rest IH|c s Hm IH] using (scan_ind f find).
    + by exists [[]].
    + destruct IH as (parts & Hs & Hr & Hl).
      exists ([] :: parts). rewrite replace_from_match, count_from_match.
      rewrite !str_join_cons by (by destruct parts).
      rewrite <- Hs, <- Hr. simpl. by rewrite Hl.
    + destruct IH as (parts & Hs & Hr & Hl).
      rewrite replace_from_miss, count_from_miss by exact Hm.
      destruct parts as [|p parts]; [discriminate|].
      exists ((c :: p) :: parts). split; [|split].
      * rewrite Hs. by destruct parts.
      * rewrite Hr. by destruct parts.
      * exact Hl.
Qed.

(** ** The current document *)

Lemma getitem_lookup {A} (l : list A) (i : Z) (a : A) :
  0 <= i -> getitem l i = Ok a <-> l !! Z.to_nat i = Some a.
Proof.
  intros Hi. unfold getitem.
  destruct (Z.ltb_spec i 0) as [?|_]; [lia|].
  destruct (Z.leb_spec 0 i) as [_|?]; [|lia].
  destruct (Z.ltb_spec i (Z.of_nat (length l))) as [Hlt|Hge]; simpl.
  - destruct (l !! Z.to_nat i) eqn:E; split; congruence.
  - split; [discriminate|]. intros Hl. apply lookup_lt_Some in Hl. lia.
Qed.

Lemma get_current_document_lookup (app : CopyAppTUI) (d : DocumentTab) :
  get_current_document app = Ok d <-> documents app !! current_pos app = Some d.
Proof.
  unfold get_current_document, current_pos.
  destruct (in_range (current_doc_index app) (documents app)) eqn:E.
  - apply getitem_lookup. unfold in_range in E. lia.
  - by apply (getitem_lookup _ 0).
Qed.

Lemma get_current_document_total (app : CopyAppTUI) :
  documents app <> [] -> exists d, get_current_document app = Ok d.
Proof.
  intros Hne. destruct (documents app !! current_pos app) as [d|] eqn:E.
  - exists d. by apply get_current_document_lookup.
  - exfalso. apply lookup_ge_None in E. unfold current_pos, in_range, len in E.
    assert (0 < length (documents app))%nat by (destruct (documents app); [done|simpl; lia]).
    destruct (_ && _) eqn:Hr; lia.
Qed.

Lemma current_pos_set_document (app : CopyAppTUI) (i : nat) (d : DocumentTab) :
  current_pos (set_document app i d) = current_pos app.
Proof. unfold current_pos, in_range, len. simpl. by rewrite length_insert. Qed.

Lemma get_current_document_set (app : CopyAppTUI) (d d' : DocumentTab) :
  get_current_document app = Ok d ->
  get_current_document (set_document app (current_pos app) d') = Ok d'.
Proof.
  intros Hd. apply get_current_document_lookup in Hd.
  apply get_current_document_lookup. rewrite current_pos_set_document. simpl.
  apply list_lookup_insert_eq. by apply lookup_lt_Some in Hd.
Qed.

(** ** The shape of a step *)

Lemma documents_step_weaken (R R' : DocumentTab -> DocumentTab -> Prop)
    (F F' : DocumentTab -> Prop) (docs docs' : list DocumentTab) :
  (forall d d', R d d' -> R' d d') -> (forall d, F d -> F' d) ->
  documents_step R F docs docs' -> documents_step R' F' docs docs'.
Proof. intros HR HF []; econstructor; eauto. Qed.

Lemma documents_step_nonempty R F (docs docs' : list DocumentTab) :
  documents_step R F docs docs' -> docs <> [] -> docs' <> [].
Proof.
  intros [] Hne; try done.
  - intros E. apply (f_equal (@length _)) in E. rewrite length_insert in E.
    by destruct docs.
  - by destruct docs.
  - intros E. apply (f_equal (@length _)) in E.
    rewrite length_delete in E by (by apply lookup_lt_is_Some_2). simpl in E. lia.
Qed.

Section Steps.
Context `{Runtime}.

Lemma update_stats_fresh (d d' : DocumentTab) :
  update_stats d = Ok d' ->
  version d' = version d /\ modified d' = modified d
  /\ content d' = content d /\ name d' = name d
  /\ exists bs, utf8_encode (content d) = Some bs
                /\ checksum d' = md5_hexdigest bs.
Proof.
  unfold update_stats, str_encode. destruct (utf8_encode (content d)) eqn:E;
    [|discriminate].
  intros [= <-]. simpl. eauto 10.
Qed.

Lemma DocumentTab_new_fresh (n c : pystr) (p : option pystr) (d : DocumentTab) :
  DocumentTab_new n c p = Ok d ->
  newly_built d /\ content d = c /\ name d = n
  /\ exists bs, utf8_encode c = Some bs /\ checksum d = md5_hexdigest bs.
Proof.
  unfold DocumentTab_new. intros Hd.
  apply update_stats_fresh in Hd as (Hv & Hm & Hc & Hn & He). simpl in *.
  unfold newly_built. rewrite Hv, Hm, Hc, Hn. by repeat split.
Qed.

Lemma assign_content_step b (app : CopyAppTUI) (doc : DocumentTab) (i : nat)
    (new_content : pystr) (out ok : list Msg) :
  documents app !! i = Some doc ->
  documents_step (kept b) newly_built (documents app)
    (documents (app_after (assign_content app i doc new_content out ok))).
Proof.
  intros Hd. unfold assign_content.
  destruct (str_encode new_content); simpl;
    (eapply docs_assign; [exact Hd|by repeat split]).
Qed.

Lemma except_Exception_step b (app : CopyAppTUI) (report : pystr -> Msg)
    (body : result (CopyAppTUI * list Msg)) :
  (forall app' out, body = Ok (app', out) ->
     documents_step (kept b) newly_built (documents app) (documents app')) ->
  documents_step (kept b) newly_built (documents app)
    (documents (app_after (except_Exception app report body))).
Proof.
  intros Hb. unfold except_Exception. destruct body as [[app' out]|e].
  - by eapply Hb.
  - destruct (is_Exception e); constructor.
Qed.

Lemma save_to_step (w : World) (app : CopyAppTUI) (doc : DocumentTab)
    (path : pystr) (out : list Msg) :
  get_current_document app = Ok doc ->
  documents_step (kept true) newly_built (documents app)
    (documents (app_after (save_to w app doc path out))).
Proof.
  intros Hd. apply get_current_document_lookup in Hd. unfold save_to.
  destruct (write_text w path (content doc)) as [e|].
  - destruct (is_Exception e); constructor.
  - simpl. eapply docs_assign; [exact Hd|]. by repeat split.
Qed.

Lemma append_step b (app : CopyAppTUI) (d : DocumentTab) :
  newly_built d ->
  documents_step (kept b) newly_built (documents app) (documents (append_document app d)).
Proof. intros Hd. by apply docs_append. Qed.

(** Every operation changes the list of documents in one of the four
    ways, keeps the version and the check sum of the document it assigns
    to and, unless it is a save, keeps that document modified if it
    was. *)
Lemma step_documents (w : World) (c : Command) (app : CopyAppTUI) :
  documents_step (kept (is_save c)) newly_built (documents app)
    (documents (app_after (step w c app))).
Proof.
  destruct c; cbn [step is_save].
  - (* open *)
    unfold open_file. apply except_Exception_step. intros app' out.
    destruct (resolve w filename) as [path|]; simpl; [|discriminate].
    destruct (path_exists w path); simpl.
    + destruct (read_text w path) as [text|]; simpl; [|discriminate].
      destruct (DocumentTab_new _ _ _) as [d|] eqn:Ed; simpl; [|discriminate].
      intros [= <- <-]. apply append_step.
      by apply DocumentTab_new_fresh in Ed as [? _].
    + intros [= <- <-]. constructor.
  - (* save *)
    unfold save_file.
    destruct (get_current_document app) as [doc|] eqn:Ed; [|constructor].
    destruct filename as [[|c f]|];
      repeat match goal with
        | |- context [match ?x with _ => _ end] =>
            destruct x eqn:?; try (by constructor);
            try (by apply save_to_step)
        end.
  - (* new *)
    unfold new_document.
    destruct (DocumentTab_new _ _ _) as [d|] eqn:Ed; simpl; [|constructor].
    apply append_step. by apply DocumentTab_new_fresh in Ed as [? _].
  - (* switch *)
    unfold switch_document.
    repeat match goal with
      | |- context [match ?x with _ => _ end] =>
          destruct x eqn:?; try (by constructor)
      end.
  - (* close *)
    unfold close_document.
    destruct (len (documents app) <=? 1) eqn:El; [constructor|].
    apply Z.leb_gt in El. unfold len in El.
    destruct (match index with Some s => _ | None => _ end) as [idx|];
      [|constructor].
    destruct (in_range idx (documents app)) eqn:Er; [|constructor].
    assert (Hpop : documents_step (kept false) newly_built (documents app)
                     (documents (pop_document app idx))).
    { simpl. unfold in_range, len in Er. apply docs_pop; lia. }
    repeat match goal with
      | |- context [match ?x with _ => _ end] =>
          destruct x eqn:?; try (by constructor); try exact Hpop
      end.
  - (* edit *)
    unfold edit_document.
    destruct (get_current_document app) as [doc|] eqn:Ed; [|constructor].
    apply get_current_document_lookup in Ed.
    repeat match goal with
      | |- context [match ?x with _ => _ end] =>
          destruct x eqn:?; try (by constructor);
          try (by apply assign_content_step)
      end.
  - (* replace *)
    unfold replace_in_document.
    destruct (get_current_document app) as [doc|] eqn:Ed; [|constructor].
    apply get_current_document_lookup in Ed.
    case_bool_decide; [constructor|by apply assign_content_step].
  - (* snippet: add *)
    unfold snippet_add.
    repeat match goal with
      | |- context [match ?x with _ => _ end] =>
          destruct x eqn:?; try (by constructor)
      end.
  - (* snippet: use *)
    unfold snippet_use.
    destruct (get_current_document app) as [doc|] eqn:Ed.
    + apply get_current_document_lookup in Ed.
      repeat match goal with
        | |- context [match ?x with _ => _ end] =>
            destruct x eqn:?; try (by constructor);
            try (by simpl; eapply docs_assign; [exact Ed|by repeat split])
        end.
    + repeat match goal with
        | |- context [match ?x with _ => _ end] =>
            destruct x eqn:?; try (by constructor)
        end.
  - (* snippet: delete *)
    unfold snippet_delete.
    repeat match goal with
      | |- context [match ?x with _ => _ end] =>
          destruct x eqn:?; try (by constructor)
      end.
  - (* paste *)
    unfold paste_from_clipboard.
    destruct (clipboard w) as [[|c text]| |e]; try constructor.
    + apply except_Exception_step. intros app' out.
      destruct (DocumentTab_new _ _ _) as [d|] eqn:Ed; simpl; [|discriminate].
      intros [= <- <-]. apply append_step.
      by apply DocumentTab_new_fresh in Ed as [? _].
    + apply except_Exception_step. discriminate.
  - (* url *)
    unfold fetch_url.
    destruct (fetch_text w _) as [text|e].
    + destruct (DocumentTab_new _ _ _) as [d|e] eqn:Ed.
      * simpl. apply docs_append.
        by apply DocumentTab_new_fresh in Ed as [? _].
      * destruct (is_Exception e); constructor.
    + destruct (is_Exception e); constructor.
  - (* the editor widget *)
    unfold on_text_changed.
    destruct (in_range _ _) eqn:Er; [|constructor].
    destruct (getitem _ _) as [doc|] eqn:Ed; [|constructor].
    apply getitem_lookup in Ed; [|unfold in_range in Er; lia].
    case_bool_decide; [constructor|by apply assign_content_step].
  - (* the document list widget *)
    unfold gui_switch_document. destruct (in_range _ _); constructor.
  - (* checkpoint *)
    constructor.
Qed.

End Steps.

(** ** Saving *)

Section Store.
Context `{Runtime}.

Lemma save_to_outcome (w : World) (app : CopyAppTUI) (doc : DocumentTab)
    (path : pystr) (out : list Msg) :
  get_current_document app = Ok doc ->
  save_outcome w app (save_to w app doc path out).
Proof.
  intros Hd. unfold save_to.
  destruct (write_text w path (content doc)) as [e|] eqn:Ew.
  - right; left. exists doc, path, e. repeat split; try done.
    + by destruct (is_Exception e).
    + destruct (is_Exception e); simpl; [|done].
      by rewrite last_snoc.
  - left. exists doc, path, (set_saved doc path (path_name path)).
    simpl. rewrite last_snoc. repeat split; try done.
    by apply (get_current_document_set _ doc).
Qed.

Lemma save_file_outcome (w : World) (filename : option pystr) (app : CopyAppTUI) :
  save_outcome w app (save_file w filename app).
Proof.
  unfold save_file.
  destruct (get_current_document app) as [doc|e] eqn:Ed.
  2: { right; right. split; [done|]. by left. }
  destruct filename as [[|c f]|];
    repeat match goal with
      | |- context [match ?x with _ => _ end] =>
          destruct x eqn:?; try (by apply save_to_outcome);
          try (by right; right; split; [done|left]);
          try (by right; right; split; [done|right])
      end.
Qed.

(** What [save_to] does, by the fate of the write. *)
Lemma save_to_cases (w : World) (app : CopyAppTUI) (doc : DocumentTab)
    (path : pystr) (prompt : list Msg) :
  get_current_document app = Ok doc ->
  let out := save_to w app doc path prompt in
  match write_text w path (content doc) with
  | None =>
      printed out = prompt ++ [Saved path] /\ raised out = None
      /\ exists doc',
           get_current_document (app_after out) = Ok doc'
           /\ modified doc' = false /\ content doc' = content doc
           /\ file_path doc' = Some path /\ name doc' = path_name path
  | Some e =>
      app_after out = app
      /\ if is_Exception e
         then printed out = prompt ++ [ErrorSaving (exn_str e)]
              /\ raised out = None
         else printed out = prompt /\ raised out = Some e
  end.
Proof.
  intros Hd. cbv zeta. unfold save_to.
  destruct (write_text w path (content doc)) as [e|].
  - split; by destruct (is_Exception e).
  - repeat split. exists (set_saved doc path (path_name path)).
    split; [by apply (get_current_document_set _ doc)|done].
Qed.

(** C2 (as amended).  A save has a target, [saves_to], or none.  With a
    target, a write that succeeds clears the modified flag of the current
    document and reports [Saved]; a write that raises leaves the whole
    state as it was, the flag included, and the save prints
    [ErrorSaving] and returns as after a success, unless the exception is
    no [Exception], which it lets through.  Without a target nothing
    changes.  And no operation but a save turns the flag of an open
    document from true to false. *)
Theorem save_file_modified_flag (w : World) (filename : option pystr)
    (app : CopyAppTUI) :
  let out := save_file w filename app in
  (forall (doc : DocumentTab) (path : pystr) (prompt : list Msg),
     get_current_document app = Ok doc ->
     saves_to w filename doc path prompt ->
     match write_text w path (content doc) with
     | None =>
         printed out = prompt ++ [Saved path] /\ raised out = None
         /\ exists doc',
              get_current_document (app_after out) = Ok doc'
              /\ modified doc' = false /\ content doc' = content doc
              /\ file_path doc' = Some path /\ name doc' = path_name path
     | Some e =>
         app_after out = app
         /\ if is_Exception e
            then printed out = prompt ++ [ErrorSaving (exn_str e)]
                 /\ raised out = None
            else printed out = prompt /\ raised out = Some e
     end)
  /\ (forall doc : DocumentTab,
        get_current_document app = Ok doc ->
        (forall path prompt, ~ saves_to w filename doc path prompt) ->
        app_after out = app)
  /\ save_outcome w app out
  /\ forall (w' : World) (c : Command),
       is_save c = false ->
       documents_step stays_modified (fun _ => True) (documents app)
         (documents (app_after (step w' c app))).
Proof.
  cbv zeta. split; [|split; [|split; [apply save_file_outcome|]]].
  - intros doc path prompt Hd Ht. unfold save_file. rewrite Hd.
    unfold saves_to in Ht. destruct filename as [[|c f]|].
    + destruct (file_path doc) as [p|].
      * destruct Ht as [-> ->]. by apply save_to_cases.
      * destruct Ht as (typed & c & f & -> & -> & -> & ->).
        by apply save_to_cases.
    + destruct Ht as [-> ->]. by apply save_to_cases.
    + destruct (file_path doc) as [p|].
      * destruct Ht as [-> ->]. by apply save_to_cases.
      * destruct Ht as (typed & c & f & -> & -> & -> & ->).
        by apply save_to_cases.
  - intros doc Hd Hno. unfold save_file. rewrite Hd.
    unfold saves_to in Hno. destruct filename as [[|c f]|].
    + destruct (file_path doc) as [p|]; [by destruct (Hno p [])|].
      destruct (input w) as [typed|]; [|done].
      destruct (str_strip typed) as [|c f] eqn:Es; [done|].
      destruct (resolve w (c :: f)) as [path|] eqn:Er; [|done].
      destruct (Hno path [AskFilename]). by exists typed, c, f.
    + destruct (resolve w (c :: f)) as [path|] eqn:Er; [|done].
      by destruct (Hno path []).
    + destruct (file_path doc) as [p|]; [by destruct (Hno p [])|].
      destruct (input w) as [typed|]; [|done].
      destruct (str_strip typed) as [|c f] eqn:Es; [done|].
      destruct (resolve w (c :: f)) as [path|] eqn:Er; [|done].
      destruct (Hno path [AskFilename]). by exists typed, c, f.
  - intros w' c Hc. pose proof (step_documents w' c app) as Hs.
    rewrite Hc in Hs.
    eapply documents_step_weaken; [| |exact Hs]; [|done].
    intros d d' (_ & _ & Hm). exact (Hm eq_refl).
Qed.

Lemma documents_step_Forall (P : DocumentTab -> Prop) R F docs docs' :
  (forall d d', R d d' -> P d -> P d') -> (forall d, F d -> P d) ->
  documents_step R F docs docs' -> Forall P docs -> Forall P docs'.
Proof.
  intros HR HF Hs Hall. destruct Hs as [|i d d' Hd Hr|d Hd|i Hi Hl].
  - exact Hall.
  - apply Forall_insert; [exact Hall|]. eapply HR; [exact Hr|].
    eapply Forall_lookup_1; eauto.
  - apply Forall_app; split; [exact Hall|]. repeat constructor. by apply HF.
  - by apply Forall_delete.
Qed.

Lemma init_documents (loaded : list pystr) (app : CopyAppTUI) :
  CopyAppTUI_init loaded = Ok app ->
  exists d, documents app = [d] /\ newly_built d /\ current_doc_index app = 0.
Proof.
  unfold CopyAppTUI_init.
  destruct (DocumentTab_new _ _ _) as [d|] eqn:Ed; simpl; [|discriminate].
  intros [= <-]. exists d. apply DocumentTab_new_fresh in Ed as [? _]. done.
Qed.

(** C3 (as amended).  No operation changes the version of a document: an
    assignment to an open document, by a save or by an edit, keeps it, and
    a new document starts at 1; so every document of every reachable state
    has version 1. *)
Theorem version_never_changes :
  (forall (w : World) (c : Command) (app : CopyAppTUI),
     documents_step (fun d d' => version d' = version d)
       (fun d => version d = 1) (documents app)
       (documents (app_after (step w c app))))
  /\ forall app : CopyAppTUI,
       reachable app -> Forall (fun d => version d = 1) (documents app).
Proof.
  assert (Hstep : forall w c app,
     documents_step (fun d d' => version d' = version d)
       (fun d => version d = 1) (documents app)
       (documents (app_after (step w c app)))).
  { intros w c app. eapply documents_step_weaken; [| |apply step_documents].
    - by intros d d' (? & _).
    - by intros d (? & _). }
  split; [exact Hstep|].
  induction 1 as [loaded app Hinit|w c app _ IH].
  - apply init_documents in Hinit as (d & -> & (Hv & _) & _).
    by repeat constructor.
  - eapply documents_step_Forall; [| |apply Hstep|exact IH].
    + intros d d' ->. done.
    + done.
Qed.

(** C9.  With one document left nothing is closed.  Otherwise the state
    is unchanged or the document at the target position is removed, and a
    modified document is removed only after the prompt was answered with
    ["y"] or ["Y"] (an answer whose lower case is ["y"]). *)
Theorem close_document_guard (w : World) (index : option pystr)
    (app : CopyAppTUI) :
  let out := close_document w index app in
  (len (documents app) <= 1 -> out = returns app [CannotCloseLast])
  /\ (app_after out = app
      \/ exists (idx : Z) (doc : DocumentTab),
           0 <= idx /\ documents app !! Z.to_nat idx = Some doc
           /\ documents (app_after out) = delete (Z.to_nat idx) (documents app)
           /\ last (printed out) = Some (Closed (name doc))
           /\ (modified doc = true ->
               exists response,
                 input w = Ok response /\ str_lower response = py "y"
                 /\ printed out
                    = [AskCloseAnyway (name doc); Closed (name doc)])).
Proof.
  cbv zeta. unfold close_document. split.
  - intros Hl. apply Z.leb_le in Hl. by rewrite Hl.
  - destruct (len (documents app) <=? 1); [by left|].
    destruct (match index with Some s => _ | None => _ end) as [idx|];
      [|by left].
    destruct (in_range idx (documents app)) eqn:Er; [|by left].
    assert (0 <= idx) by (unfold in_range in Er; lia).
    destruct (getitem (documents app) idx) as [doc|] eqn:Ed; [|by left].
    apply getitem_lookup in Ed; [|done].
    destruct (modified doc) eqn:Em.
    + destruct (input w) as [response|] eqn:Ei; [|by left].
      case_bool_decide as Hy; [|by left].
      right. exists idx, doc. repeat split; try done.
      intros _. by exists response.
    + right. exists idx, doc. repeat split; try done. congruence.
Qed.

(** C10.  In every reachable state there is at least one document, and
    whatever the cursor is, [get_current_document] returns a document: the
    one at the cursor when the cursor is within the list, the first one
    otherwise. *)
Theorem documents_never_empty (app : CopyAppTUI) :
  reachable app ->
  documents app <> []
  /\ forall idx : Z,
       exists d,
         get_current_document (mkApp (documents app) idx (snippets app)) = Ok d
         /\ (in_range idx (documents app) = true ->
             documents app !! Z.to_nat idx = Some d)
         /\ (in_range idx (documents app) = false ->
             head (documents app) = Some d).
Proof.
  intros Hr.
  assert (Hne : documents app <> []).
  { induction Hr as [loaded app Hinit|w c app _ IH].
    - by apply init_documents in Hinit as (d & -> & _).
    - eapply documents_step_nonempty; [apply step_documents|exact IH]. }
  split; [exact Hne|]. intros idx.
  destruct (get_current_document_total (mkApp (documents app) idx (snippets app)))
    as [d Hd]; [done|].
  exists d. split; [exact Hd|].
  apply get_current_document_lookup in Hd. unfold current_pos in Hd.
  simpl in Hd. destruct (in_range idx (documents app)).
  - split; [done|discriminate].
  - split; [discriminate|]. intros _. by rewrite head_lookup.
Qed.

(** C4.  A checkpoint tick leaves the store as it is, and with it the
    modified flag of every document: what it writes, the backup file and
    the database row, and the backup file that a failed write spoils, is
    of a document that is modified, and they stay so. *)
Theorem perform_auto_save_keeps_modified (w : World) (timestamp : pystr)
    (app : CopyAppTUI) :
  fst (perform_auto_save w timestamp app) = app
  /\ map modified (documents (fst (perform_auto_save w timestamp app)))
     = map modified (documents app)
  /\ app_after (step w (AutoSaveTick timestamp) app) = app
  /\ forall e : Effect,
       e ∈ snd (perform_auto_save w timestamp app) ->
       exists (i : nat) (doc : DocumentTab),
         documents app !! i = Some doc /\ modified doc = true
         /\ (e = WroteBackup (autosave_file i timestamp) (content doc)
             \/ e = SavedRow doc
             \/ exists after,
                  e = SpoiltBackup (autosave_file i timestamp) after).
Proof.
  repeat split. intros e He. cbn [perform_auto_save snd] in He.
  apply list_elem_of_In, in_concat in He as (effects & Hin & He).
  apply list_elem_of_In, elem_of_lookup_imap_1 in Hin as (i & doc & -> & Hd).
  exists i, doc. split; [exact Hd|]. unfold auto_save_document in He.
  destruct (modified doc); [|by destruct He]. split; [reflexivity|].
  cbn [andb] in He. destruct (truthy _); [|by destruct He].
  destruct (path_write_text w (autosave_file i timestamp) (content doc))
    as [[x|] after].
  - destruct after; [by destruct He|..];
      (destruct He as [<-|[]]; right; right; by eexists).
  - destruct He as [<-|He]; [by left|].
    destruct (db_write w doc); [by destruct He|].
    destruct He as [<-|[]]. right. by left.
Qed.

End Store.

(** ** Replacing in a document *)

(** C8 (as amended).  [replace_in_document] replaces the occurrences of
    the find string literally: the content is cut at the occurrences and
    glued again with the replacement.  When this changes the content, the
    current document gets the new content and is marked modified, and the
    number of occurrences is reported (unless the new content cannot be
    encoded, which raises).  When it does not change the content, which is
    so exactly when the find string does not occur or is its own
    replacement, nothing changes and no match is reported. *)
Theorem replace_in_document_report (find_text replace_text : pystr)
    (app : CopyAppTUI) (doc : DocumentTab) :
  get_current_document app = Ok doc ->
  let old_content := content doc in
  let new_content := str_replace old_content find_text replace_text in
  let count := str_count old_content find_text in
  let out := replace_in_document find_text replace_text app in
  (exists parts : list pystr,
      old_content = str_join find_text parts
      /\ new_content = str_join replace_text parts
      /\ length parts = S count)
  /\ (new_content = old_content <->
      count = 0%nat \/ find_text = replace_text)
  /\ (new_content = old_content -> out = returns app [NoMatches find_text])
  /\ (new_content <> old_content ->
      exists doc',
        get_current_document (app_after out) = Ok doc'
        /\ content doc' = new_content /\ modified doc' = true
        /\ match utf8_encode new_content with
           | Some bs =>
               data_raw doc' = bs
               /\ printed out = [Replaced (Z.of_nat count) find_text]
               /\ raised out = None
           | None =>
               data_raw doc' = data_raw doc
               /\ printed out = []
               /\ raised out = Some (encode_error new_content)
           end).
Proof.
  intros Hd. cbv zeta. split; [apply str_replace_parts|].
  split; [apply str_replace_fixed|].
  unfold replace_in_document. rewrite Hd. split.
  - intros Heq. by rewrite bool_decide_eq_true_2.
  - intros Hne. rewrite bool_decide_eq_false_2 by exact Hne.
    unfold assign_content, str_encode.
    destruct (utf8_encode _) as [bs|] eqn:Ee.
    + eexists. split; [by apply (get_current_document_set _ doc)|].
      by simpl.
    + eexists. split; [by apply (get_current_document_set _ doc)|].
      by simpl.
Qed.

(** ** The operations on examples *)

(** The example of the specification: ["foo foo baz"], ["foo"] replaced
    by ["bar"]. *)
Lemma replace_in_document_report_witness :
  let out :=
    replace_in_document (py "foo") (py "bar") (one_document (py "foo foo baz")) in
  exists doc',
    get_current_document (app_after out) = Ok doc'
    /\ content doc' = py "bar bar baz"
    /\ printed out = [Replaced 2 (py "foo")].
Proof.
  cbv zeta.
  destruct (replace_in_document_report (py "foo") (py "bar")
              (one_document (py "foo foo baz"))
              (document_of (py "Untitled") (py "foo foo baz")))
    as (_ & _ & _ & Hch); [vm_compute; reflexivity|].
  destruct Hch as (doc' & Hg & Hc & _ & Hp); [vm_compute; discriminate|].
  exists doc'. split; [exact Hg|]. split; [exact Hc|].
  destruct (utf8_encode _) in Hp; [by destruct Hp as (_ & Hp & _)|].
  destruct Hp as (_ & Hp & _). by vm_compute in Hp.
Defined.

(** C8, the claim as it stands fails: the find string occurs twice, it is
    replaced by itself, and the operation reports that there is no
    match. *)
Lemma replace_reports_no_match_for_same_text :
  let app := one_document (py "foo foo baz") in
  str_count (py "foo foo baz") (py "foo") = 2%nat
  /\ replace_in_document (py "foo") (py "foo") app
     = returns app [NoMatches (py "foo")].
Proof. vm_compute. done. Qed.

(** C1, at the failing input: the first edit of the empty document to
    ["a"] leaves the check sum of the empty content, which is not the hash
    of the new content. *)
Lemma edit_leaves_checksum_stale :
  let out := edit_document (quiet_world [py "a"]) (one_document []) in
  raised out = None
  /\ map content (documents (app_after out)) = [py "a"]
  /\ map modified (documents (app_after out)) = [true]
  /\ map checksum (documents (app_after out))
     = [py "d41d8cd98f00b204e9800998ecf8427e"]
  /\ md5_hexdigest <$> utf8_encode (py "a")
     = Some (py "0cc175b9c0f1b6a831c399e269772661")
  /\ md5_hexdigest <$> utf8_encode []
     = Some (py "d41d8cd98f00b204e9800998ecf8427e").
Proof. vm_compute. done. Qed.

(** C3, the claim as it stands fails: a save that succeeds leaves the
    version at 1. *)
Lemma save_leaves_version :
  let app := one_document (py "draft") in
  let out := save_file (quiet_world []) (Some (py "notes.txt")) app in
  printed out = [Saved (py "/home/user/notes.txt")]
  /\ raised out = None
  /\ map version (documents app) = [1]
  /\ map version (documents (app_after out)) = [1].
Proof. vm_compute. done. Qed.

(** A save that succeeds, a save on a full disk, and a replacement, all
    after an edit. *)
Lemma save_file_modified_flag_witness :
  let app := app_after (edit_document (quiet_world [py "a"]) (one_document [])) in
  let saved := save_file (quiet_world []) (Some (py "a.txt")) app in
  let failed := save_file (full_disk_world []) (Some (py "a.txt")) app in
  (printed saved = [Saved (py "/home/user/a.txt")] /\ raised saved = None
   /\ exists doc',
        get_current_document (app_after saved) = Ok doc'
        /\ modified doc' = false /\ content doc' = py "a"
        /\ file_path doc' = Some (py "/home/user/a.txt")
        /\ name doc' = path_name (py "/home/user/a.txt"))
  /\ (app_after failed = app
      /\ printed failed
         = [ErrorSaving (py "[Errno 28] No space left on device")]
      /\ raised failed = None)
  /\ documents_step stays_modified (fun _ => True) (documents app)
       (documents (app_after (step (quiet_world []) (CmdReplace (py "a") (py "b")) app))).
Proof.
  cbv zeta.
  set (app := app_after (edit_document (quiet_world [py "a"]) (one_document []))).
  set (doc := set_data_raw
                (set_modified (set_content (document_of (py "Untitled") [])
                                 (py "a")) true) (py "a")).
  assert (Hd : get_current_document app = Ok doc) by (by vm_compute).
  split; [|split].
  - exact (proj1 (save_file_modified_flag (quiet_world []) (Some (py "a.txt")) app)
             doc (py "/home/user/a.txt") [] Hd (conj eq_refl eq_refl)).
  - exact (proj1 (save_file_modified_flag (full_disk_world [])
                    (Some (py "a.txt")) app)
             doc (py "/home/user/a.txt") [] Hd (conj eq_refl eq_refl)).
  - by apply (proj2 (proj2 (proj2
                (save_file_modified_flag (quiet_world []) None app)))).
Defined.

(** C2, the claim as it stands fails.  On a full disk the write raises
    and the save only prints this: it raises nothing and, having no
    result, returns to its caller as the save that succeeded does. *)
Lemma save_failure_is_only_printed :
  let app := app_after (edit_document (quiet_world [py "a"]) (one_document [])) in
  let saved := save_file (quiet_world []) (Some (py "a.txt")) app in
  let failed := save_file (full_disk_world []) (Some (py "a.txt")) app in
  write_text (full_disk_world []) (py "/home/user/a.txt") (py "a")
  = Some (mkExn OSError (py "[Errno 28] No space left on device"))
  /\ raised failed = None /\ raised saved = None
  /\ printed failed = [ErrorSaving (py "[Errno 28] No space left on device")]
  /\ app_after failed = app.
Proof. vm_compute. done. Qed.

(** After [new] and [close] one document is left, and a cursor of 7 falls
    back to it. *)
Lemma documents_never_empty_witness :
  let app :=
    app_after (step (quiet_world []) (CmdClose None)
                 (app_after (step (quiet_world []) CmdNew (one_document [])))) in
  documents app <> []
  /\ exists d, get_current_document (mkApp (documents app) 7 (snippets app)) = Ok d
               /\ head (documents app) = Some d.
Proof.
  cbv zeta.
  set (app := app_after (step _ (CmdClose None) _)).
  assert (Hr : reachable app).
  { do 2 apply reachable_step. by apply (reachable_init []). }
  destruct (documents_never_empty app Hr) as [Hne Hcur].
  split; [exact Hne|].
  destruct (Hcur 7) as (d & Hd & _ & Hhead). exists d. split; [exact Hd|].
  by apply Hhead.
Defined.

(** Every document has version 1 after [new], an edit and a save. *)
Lemma version_never_changes_witness :
  Forall (fun d => version d = 1)
    (documents (app_after (step (quiet_world []) (CmdSave (Some (py "a.txt")))
                             two_documents))).
Proof.
  apply (proj2 version_never_changes).
  unfold two_documents, one_document.
  apply reachable_step.
  apply (reachable_step (quiet_world [py "a"]) CmdEdit).
  apply (reachable_step (quiet_world []) CmdNew).
  by apply (reachable_init []).
Defined.

(** The backup written by a tick is that of the modified document, which
    stays modified. *)
Lemma perform_auto_save_keeps_modified_witness :
  map modified
    (documents (fst (perform_auto_save (quiet_world []) (py "20240101_120000")
                       two_documents)))
  = [false; true]
  /\ exists (i : nat) (doc : DocumentTab),
       documents two_documents !! i = Some doc /\ modified doc = true
       /\ (WroteBackup (py "autosave_1_20240101_120000.txt") (py "a")
           = WroteBackup (autosave_file i (py "20240101_120000")) (content doc)
           \/ WroteBackup (py "autosave_1_20240101_120000.txt") (py "a")
              = SavedRow doc
           \/ exists after,
                WroteBackup (py "autosave_1_20240101_120000.txt") (py "a")
                = SpoiltBackup (autosave_file i (py "20240101_120000")) after).
Proof.
  destruct (perform_auto_save_keeps_modified (quiet_world [])
              (py "20240101_120000") two_documents) as (_ & Hm & _ & He).
  split; [rewrite Hm; by vm_compute|].
  apply He. apply list_elem_of_In. vm_compute. by left.
Defined.

(** Closing the modified document of [two_documents]: answered with ["Y"]
    it is removed, answered with ["n"] it stays. *)
Lemma close_document_guard_witness :
  (let out := close_document (quiet_world [py "Y"]) None two_documents in
   (len (documents two_documents) <= 1 ->
    out = returns two_documents [CannotCloseLast])
   /\ (app_after out = two_documents
       \/ exists (idx : Z) (doc : DocumentTab),
            0 <= idx /\ documents two_documents !! Z.to_nat idx = Some doc
            /\ documents (app_after out)
               = delete (Z.to_nat idx) (documents two_documents)
            /\ last (printed out) = Some (Closed (name doc))
            /\ (modified doc = true ->
                exists response,
                  input (quiet_world [py "Y"]) = Ok response
                  /\ str_lower response = py "y"
                  /\ printed out
                     = [AskCloseAnyway (name doc); Closed (name doc)])))
  /\ length (documents (app_after (close_document (quiet_world [py "Y"]) None
                                     two_documents))) = 1%nat
  /\ app_after (close_document (quiet_world [py "n"]) None two_documents)
     = two_documents.
Proof.
  split; [exact (close_document_guard (quiet_world [py "Y"]) None two_documents)|].
  by vm_compute.
Defined.

(** ** Language detection *)

Lemma fold_first_maximum (pre rest : list (pystr * Z)) (i : nat)
    (best : pystr * Z) :
  first_maximum pre i best ->
  exists i',
    first_maximum (pre ++ rest) i'
      (fold_left (fun best item => if snd best <? snd item then item else best)
         rest best).
Proof.
  revert pre i best. induction rest as [|y rest IH]; intros pre i best Hb.
  - exists i. by rewrite app_nil_r.
  - simpl. replace (pre ++ y :: rest) with ((pre ++ [y]) ++ rest)
      by (by rewrite <- app_assoc).
    destruct Hb as (Hi & Hle & Hlt).
    assert (Hil : (i < length pre)%nat) by (by apply lookup_lt_Some in Hi).
    destruct (Z.ltb_spec (snd best) (snd y)) as [Hy|Hy].
    + apply (IH _ (length pre)). split; [|split].
      * by rewrite lookup_app_r, Nat.sub_diag.
      * intros j item Hj. apply lookup_app_Some in Hj as [Hj|[_ Hj]].
        -- apply Hle in Hj. lia.
        -- apply list_lookup_singleton_Some in Hj as [_ <-]. lia.
      * intros j item Hj Hjl. rewrite lookup_app_l in Hj by exact Hjl.
        apply Hle in Hj. lia.
    + apply (IH _ i). split; [|split].
      * by rewrite lookup_app_l.
      * intros j item Hj. apply lookup_app_Some in Hj as [Hj|[_ Hj]].
        -- by apply Hle in Hj.
        -- apply list_lookup_singleton_Some in Hj as [_ <-]. lia.
      * intros j item Hj Hji. rewrite lookup_app_l in Hj by lia.
        by apply (Hlt j).
Qed.

Lemma max_by_score_first_maximum (items : list (pystr * Z)) :
  items <> [] ->
  exists i best, max_by_score items = Some best /\ first_maximum items i best.
Proof.
  destruct items as [|x rest]; [done|]. intros _.
  destruct (fold_first_maximum [x] rest 0 x) as [i Hi].
  - split; [done|]. split.
    + intros [|j] item Hj; [|done]. injection Hj as <-. lia.
    + intros j item _ Hj. lia.
  - by exists i, (fold_left
                   (fun best item => if snd best <? snd item then item else best)
                   rest x).
Qed.

Lemma fold_max_value (rest : list Z) (x : Z) :
  let m := fold_left (fun best v => if best <? v then v else best) rest x in
  x <= m /\ Forall (fun v => v <= m) rest /\ (m = x \/ m ∈ rest).
Proof.
  revert x. induction rest as [|y rest IH]; intros x; simpl.
  - split; [lia|]. split; [constructor|by left].
  - destruct (Z.ltb_spec x y) as [Hy|Hy].
    + destruct (IH y) as (Hle & Hall & Hin). split; [lia|]. split.
      * by constructor.
      * right. destruct Hin as [->|Hin]; [left|by right].
    + destruct (IH x) as (Hle & Hall & Hin). split; [lia|]. split.
      * constructor; [lia|done].
      * destruct Hin as [Hin|Hin]; [by left|right; by right].
Qed.

Lemma max_value_greatest (values : list Z) :
  values <> [] ->
  exists m, max_value values = Some m /\ m ∈ values
            /\ Forall (fun v => v <= m) values.
Proof.
  destruct values as [|x rest]; [done|]. intros _.
  destruct (fold_max_value rest x) as (Hle & Hall & Hin).
  eexists. split; [reflexivity|]. split.
  - destruct Hin as [->|Hin]; [left|by right].
  - by constructor.
Qed.

Section Detect.
Context `{Runtime}.

Lemma language_score_nonneg (content_lower : pystr) (regexes : list pystr) :
  0 <= language_score content_lower regexes.
Proof.
  unfold language_score.
  assert (Hge : forall acc, acc <= fold_left
            (fun score pattern =>
               if re_search pattern content_lower then score + 1 else score)
            regexes acc).
  { induction regexes as [|p ps IH]; intros acc; simpl; [lia|].
    destruct (re_search p content_lower).
    - specialize (IH (acc + 1)). lia.
    - apply IH. }
  apply Hge.
Qed.

Lemma language_scores_names (content : pystr) :
  map fst (language_scores content) = map fst patterns.
Proof. unfold language_scores. rewrite map_map. reflexivity. Qed.

Lemma language_scores_nonneg (content : pystr) (item : pystr * Z) :
  item ∈ language_scores content -> 0 <= snd item.
Proof.
  unfold language_scores. intros Hin.
  apply list_elem_of_fmap in Hin as (entry & -> & _).
  apply language_score_nonneg.
Qed.

Lemma language_is_not_text (content : pystr) (item : pystr * Z) :
  item ∈ language_scores content -> fst item <> py "text".
Proof.
  intros Hin. assert (Hn : fst item ∈ map fst (language_scores content))
    by (by apply list_elem_of_fmap_2).
  rewrite language_scores_names in Hn. revert Hn.
  generalize (fst item). intros n Hn.
  assert (Hall : Forall (fun n => n <> py "text") (map fst patterns)).
  { apply Forall_forall. intros l Hl.
    repeat (apply elem_of_cons in Hl as [->|Hl]; [by vm_compute|]).
    by apply elem_of_nil in Hl. }
  by apply (proj1 (Forall_forall _ _) Hall).
Qed.

(** C7.  [detect_language] returns a result for every content, fixed by
    the scores of the content: ["text"] exactly when every score is zero,
    and otherwise the language of the first entry of the table among those
    with the greatest score. *)
Theorem detect_language_first_maximum (content : pystr) :
  let scores := language_scores content in
  exists lang,
    detect_language content = Ok lang
    /\ (lang = py "text" <-> Forall (fun item => snd item = 0) scores)
    /\ (lang <> py "text" ->
        exists i m, 0 < m /\ first_maximum scores i (lang, m)).
Proof.
  cbv zeta. unfold detect_language.
  assert (Hne : language_scores content <> []) by done.
  destruct (max_by_score_first_maximum _ Hne) as (i & best & Hbest & Hfirst).
  destruct (max_value_greatest (map snd (language_scores content)))
    as (m & Hm & Hin & Hall); [done|].
  rewrite Hm, Hbest.
  assert (Hmb : m = snd best).
  { destruct Hfirst as (Hi & Hle & _).
    apply list_elem_of_fmap in Hin as (item & -> & Hitem).
    apply list_elem_of_lookup in Hitem as [j Hj]. apply Hle in Hj.
    assert (Hb : snd best ∈ map snd (language_scores content)).
    { apply list_elem_of_fmap_2. by apply list_elem_of_lookup_2 in Hi. }
    apply (proj1 (Forall_forall _ _) Hall) in Hb. lia. }
  destruct (Z.ltb_spec 0 m) as [Hpos|Hzero].
  - exists (fst best). split; [done|].
    assert (Hbin : best ∈ language_scores content).
    { destruct Hfirst as (Hi & _). by apply list_elem_of_lookup_2 in Hi. }
    split; [split|].
    + intros Ht. by apply language_is_not_text in Hbin.
    + intros Hz. apply (proj1 (Forall_forall _ _) Hz) in Hbin. lia.
    + intros _. exists i, (snd best). split; [lia|]. by destruct best.
  - exists (py "text"). split; [done|]. split; [|done]. split; [|done].
    intros _. apply Forall_forall. intros item Hitem.
    pose proof (language_scores_nonneg _ _ Hitem) as Hge.
    assert (Hs : snd item ∈ map snd (language_scores content))
      by (by apply list_elem_of_fmap_2).
    apply (proj1 (Forall_forall _ _) Hall) in Hs. lia.
Qed.

End Detect.

(** A tie between [html] and [css], which [html] wins. *)
Lemma detect_language_tie :
  detect_language (py "@media <div") = Ok (py "html")
  /\ language_scores (py "@media <div")
     = [(py "python", 0); (py "javascript", 0); (py "html", 1); (py "css", 1);
        (py "markdown", 0); (py "json", 0); (py "xml", 0); (py "sql", 0);
        (py "bash", 0)].
Proof. vm_compute. done. Qed.

(** ** The batch fetch *)

Section Fetch.
Context `{Runtime}.

Lemma fetch_single_url (net : nat -> pystr -> Response) (i : nat) (u : pystr) :
  fst (fetch_single net i u) = u.
Proof. unfold fetch_single. by destruct (net i u). Qed.

Lemma collect_insert (net : nat -> pystr -> Response) (urls : list pystr)
    (results : gmap pystr pystr) (i : nat) (u : pystr) :
  urls !! i = Some u ->
  collect net urls results i = <[u := snd (fetch_single net i u)]> results.
Proof.
  intros Hu. unfold collect. rewrite Hu.
  pose proof (fetch_single_url net i u) as Hf.
  destruct (fetch_single net i u) as [url text]. simpl in *. by subst.
Qed.

Lemma collect_lookup (net : nat -> pystr -> Response) (urls : list pystr)
    (schedule : list nat) (results : gmap pystr pystr) (url text : pystr) :
  fold_left (collect net urls) schedule results !! url = Some text ->
  results !! url = Some text
  \/ exists i, i ∈ schedule /\ urls !! i = Some url
               /\ text = snd (fetch_single net i url).
Proof.
  revert results. induction schedule as [|i schedule IH]; intros results Hl.
  - by left.
  - simpl in Hl. apply IH in Hl as [Hl|(j & Hj & Hu & Ht)].
    + destruct (urls !! i) as [u|] eqn:Hu.
      * rewrite (collect_insert _ _ _ _ _ Hu) in Hl.
        apply lookup_insert_Some in Hl as [[<- <-]|[_ Hl]]; [|by left].
        right. exists i. split; [left|done].
      * unfold collect in Hl. rewrite Hu in Hl. by left.
    + right. exists j. split; [by right|done].
Qed.

Lemma collect_dom (net : nat -> pystr -> Response) (urls : list pystr)
    (schedule : list nat) (results : gmap pystr pystr) (url : pystr) :
  url ∈ dom (fold_left (collect net urls) schedule results)
  <-> url ∈ dom results \/ exists i, i ∈ schedule /\ urls !! i = Some url.
Proof.
  revert results. induction schedule as [|i schedule IH]; intros results.
  - simpl. split; [by left|]. intros [?|(i & Hi & _)]; [done|].
    by apply elem_of_nil in Hi.
  - simpl. rewrite IH. destruct (urls !! i) as [u|] eqn:Hu.
    + rewrite (collect_insert _ _ _ _ _ Hu), dom_insert, elem_of_union,
        elem_of_singleton.
      split.
      * intros [[->|Hd]|(j & Hj & Hj')].
        -- right. exists i. split; [left|done].
        -- by left.
        -- right. exists j. split; [by right|done].
      * intros [Hd|(j & Hj & Hj')]; [by left; right|].
        apply elem_of_cons in Hj as [->|Hj].
        -- left; left. congruence.
        -- right. by exists j.
    + unfold collect. rewrite Hu. split.
      * intros [Hd|(j & Hj & Hj')]; [by left|].
        right. exists j. split; [by right|done].
      * intros [Hd|(j & Hj & Hj')]; [by left|].
        apply elem_of_cons in Hj as [->|Hj]; [congruence|].
        right. by exists j.
Qed.

(** C5.  With a pool of at least one worker, whatever the answers of the
    network and whatever the order in which the tasks complete, the call
    returns a dictionary whose keys are exactly the URLs of the list, one
    entry for each distinct URL.  The entry of a URL is what one of the
    tasks submitted for it returned: the decoded body, or ["Error: "]
    followed by the text of the exception when the request failed. *)
Theorem fetch_multiple_urls_entries (net : nat -> pystr -> Response)
    (schedule : list nat) (urls : list pystr) (max_workers : Z) :
  0 < max_workers ->
  schedule ≡ₚ seq 0 (length urls) ->
  exists results : gmap pystr pystr,
    fetch_multiple_urls net schedule urls max_workers = Ok results
    /\ dom results = list_to_set urls
    /\ forall url text,
         results !! url = Some text ->
         exists i,
           urls !! i = Some url
           /\ text = snd (fetch_single net i url)
           /\ (forall message,
                 net i url = Failed message -> text = py "Error: " ++ message)
           /\ (forall bs decoded,
                 net i url = Body bs -> utf8_decode bs = Some decoded ->
                 text = decoded).
Proof.
  intros Hw Hp. unfold fetch_multiple_urls.
  destruct (Z.leb_spec max_workers 0) as [?|_]; [lia|].
  eexists. split; [reflexivity|].
  split.
  - apply set_eq. intros url. rewrite collect_dom, elem_of_list_to_set.
    split.
    + intros [Hd|(i & _ & Hu)]; [by rewrite dom_empty in Hd|].
      by apply list_elem_of_lookup_2 in Hu.
    + intros Hu. right. apply list_elem_of_lookup in Hu as [i Hi].
      exists i. split; [|done]. rewrite Hp. apply elem_of_seq.
      apply lookup_lt_Some in Hi. lia.
  - intros url text Hl. apply collect_lookup in Hl as [Hl|(i & _ & Hu & Ht)].
    + by rewrite lookup_empty in Hl.
    + exists i. split; [done|]. split; [done|]. subst text.
      unfold fetch_single. split.
      * by intros message ->.
      * by intros bs decoded -> ->.
Qed.

End Fetch.

(** Two URLs, the second one timing out and completing first. *)
Lemma fetch_multiple_urls_entries_witness :
  exists results : gmap pystr pystr,
    fetch_multiple_urls two_urls_net [1; 0]%nat [py "A"; py "B"] 5 = Ok results
    /\ dom results = list_to_set [py "A"; py "B"]
    /\ results !! py "A" = Some (py "body of A")
    /\ results !! py "B" = Some (py "Error: timed out").
Proof.
  destruct (fetch_multiple_urls_entries two_urls_net [1; 0]%nat
              [py "A"; py "B"] 5) as (results & Hr & Hd & He).
  - lia.
  - apply (Permutation_swap 0%nat 1%nat []).
  - exists results. split; [exact Hr|]. split; [exact Hd|].
    injection Hr as <-. split; reflexivity.
Defined.

(** ** The codecs *)

(** Settles each comparison in the goal by linear arithmetic, or splits
    on it. *)
Ltac decide_tests :=
  repeat match goal with
    | |- context [?a <=? ?b] =>
        first [rewrite (proj2 (Z.leb_le a b)) by lia
              |rewrite (proj2 (Z.leb_gt a b)) by lia
              |destruct (Z.leb_spec a b)]
    | |- context [?a <? ?b] =>
        first [rewrite (proj2 (Z.ltb_lt a b)) by lia
              |rewrite (proj2 (Z.ltb_ge a b)) by lia
              |destruct (Z.ltb_spec a b)]
    | |- context [?a =? ?b] =>
        first [rewrite (proj2 (Z.eqb_eq a b)) by lia
              |rewrite (proj2 (Z.eqb_neq a b)) by lia
              |destruct (Z.eqb_spec a b)]
    end.

Lemma utf8_decode_encode_char (c : Z) (b rest : pybytes) :
  utf8_encode_char c = Some b ->
  utf8_decode (b ++ rest) = cons c <$> utf8_decode rest.
Proof.
  unfold utf8_encode_char, is_surrogate.
  replace (c / 262144) with (c / 64 / 64 / 64)
    by (rewrite !Z.div_div by lia; reflexivity).
  replace (c / 4096) with (c / 64 / 64)
    by (rewrite !Z.div_div by lia; reflexivity).
  pose proof (Z.div_mod c 64 ltac:(lia)) as E1.
  pose proof (Z.mod_pos_bound c 64 ltac:(lia)) as B1.
  pose proof (Z.div_mod (c / 64) 64 ltac:(lia)) as E2.
  pose proof (Z.mod_pos_bound (c / 64) 64 ltac:(lia)) as B2.
  pose proof (Z.div_mod (c / 64 / 64) 64 ltac:(lia)) as E3.
  pose proof (Z.mod_pos_bound (c / 64 / 64) 64 ltac:(lia)) as B3.
  set (q1 := c / 64) in *. set (r1 := c mod 64) in *.
  set (q2 := q1 / 64) in *. set (r2 := q1 mod 64) in *.
  set (q3 := q2 / 64) in *. set (r3 := q2 mod 64) in *.
  clearbody q1 r1 q2 r2 q3 r3.
  destruct (Z.ltb_spec c 0); [discriminate|].
  destruct (Z.ltb_spec c 128).
  { intros [= <-]. cbn [app utf8_decode]. unfold is_cont.
    decide_tests; reflexivity. }
  destruct (Z.ltb_spec c 2048).
  { intros [= <-]. cbn [app utf8_decode]. unfold is_cont.
    decide_tests; cbn [andb negb]; do 2 f_equal; lia. }
  destruct ((55296 <=? c) && (c <=? 57343)) eqn:Es; [discriminate|].
  assert (Hs : c < 55296 \/ 57343 < c).
  { apply andb_false_iff in Es as [Es|Es]; apply Z.leb_gt in Es; lia. }
  clear Es. destruct (Z.ltb_spec c 65536).
  { intros [= <-]. cbn [app utf8_decode]. unfold is_cont.
    decide_tests; cbn [andb negb]; do 2 f_equal; lia. }
  destruct (Z.ltb_spec c 1114112); [|discriminate].
  intros [= <-]. cbn [app utf8_decode]. unfold is_cont.
  decide_tests; cbn [andb negb]; do 2 f_equal; lia.
Qed.

Lemma utf8_decode_encode (s : pystr) (bs : pybytes) :
  utf8_encode s = Some bs -> utf8_decode bs = Some s.
Proof.
  revert bs. induction s as [|c s IH]; intros bs; simpl.
  - by intros [= <-].
  - destruct (utf8_encode_char c) as [b|] eqn:Ec; [|discriminate].
    destruct (utf8_encode s) as [bs'|]; [|discriminate].
    intros [= <-]. rewrite (utf8_decode_encode_char c b bs' Ec).
    by rewrite (IH bs').
Qed.

Lemma utf8_encode_char_bytes (c : Z) (b : pybytes) :
  utf8_encode_char c = Some b -> Forall is_byte b.
Proof.
  unfold utf8_encode_char, is_surrogate, is_byte.
  destruct (Z.ltb_spec c 0); [discriminate|].
  destruct (Z.ltb_spec c 128); [intros [= <-]; repeat constructor; lia|].
  destruct (Z.ltb_spec c 2048).
  { intros [= <-]. pose proof (Z.mod_pos_bound c 64).
    assert (0 <= c / 64 < 32)
      by (split; [apply Z.div_pos|apply Z.div_lt_upper_bound]; lia).
    repeat constructor; lia. }
  destruct (_ && _); [discriminate|].
  destruct (Z.ltb_spec c 65536).
  { intros [= <-].
    pose proof (Z.mod_pos_bound c 64). pose proof (Z.mod_pos_bound (c / 64) 64).
    assert (0 <= c / 4096 < 16)
      by (split; [apply Z.div_pos|apply Z.div_lt_upper_bound]; lia).
    repeat constructor; lia. }
  destruct (Z.ltb_spec c 1114112); [|discriminate].
  intros [= <-].
  pose proof (Z.mod_pos_bound c 64). pose proof (Z.mod_pos_bound (c / 64) 64).
  pose proof (Z.mod_pos_bound (c / 4096) 64).
  assert (0 <= c / 262144 < 8)
    by (split; [apply Z.div_pos|apply Z.div_lt_upper_bound]; lia).
  repeat constructor; lia.
Qed.

Lemma utf8_encode_bytes (s : pystr) (bs : pybytes) :
  utf8_encode s = Some bs -> Forall is_byte bs.
Proof.
  revert bs. induction s as [|c s IH]; intros bs; simpl.
  - intros [= <-]. constructor.
  - destruct (utf8_encode_char c) as [b|] eqn:Ec; [|discriminate].
    destruct (utf8_encode s) as [bs'|]; [|discriminate].
    intros [= <-]. apply Forall_app. split.
    + by apply utf8_encode_char_bytes in Ec.
    + by apply IH.
Qed.

Lemma utf8_encode_ascii (s : pystr) :
  Forall is_ascii s -> utf8_encode s = Some s.
Proof.
  induction 1 as [|c s Hc _ IH]; [reflexivity|]. simpl. rewrite IH.
  unfold utf8_encode_char. unfold is_ascii in Hc. by decide_tests.
Qed.

(** *** Base64 *)

Lemma b64_value_char (n : Z) :
  0 <= n < 64 ->
  b64_value (b64_char n) = Some n /\ b64_char n <> 61
  /\ is_ascii (b64_char n).
Proof.
  intros Hn. unfold b64_char, b64_value, is_ascii.
  destruct (Z.ltb_spec n 26).
  { decide_tests. cbn [andb]. repeat split; (f_equal; lia) || lia. }
  destruct (Z.ltb_spec n 52).
  { decide_tests. cbn [andb]. repeat split; (f_equal; lia) || lia. }
  destruct (Z.ltb_spec n 62).
  { decide_tests. cbn [andb]. repeat split; (f_equal; lia) || lia. }
  destruct (Z.eqb_spec n 62).
  { subst n. by vm_compute. }
  assert (n = 63) as -> by lia. by vm_compute.
Qed.

Lemma a2b_base64_data (quad_pos leftchar pads n : Z) (s : pybytes) :
  0 <= n < 64 ->
  a2b_base64 quad_pos leftchar pads (b64_char n :: s)
  = if quad_pos =? 0 then a2b_base64 1 n 0 s
    else if quad_pos =? 1 then
      cons (leftchar * 4 + n / 16) <$> a2b_base64 2 (n mod 16) 0 s
    else if quad_pos =? 2 then
      cons (leftchar * 16 + n / 4) <$> a2b_base64 3 (n mod 4) 0 s
    else cons (leftchar * 64 + n) <$> a2b_base64 0 0 0 s.
Proof.
  intros Hn. destruct (b64_value_char n Hn) as (Hv & Hpad & _).
  cbn [a2b_base64]. rewrite Hv. apply Z.eqb_neq in Hpad. by rewrite Hpad.
Qed.

Lemma a2b_base64_quad (l0 p0 v1 v2 v3 v4 : Z) (s : pybytes) :
  0 <= v1 < 64 -> 0 <= v2 < 64 -> 0 <= v3 < 64 -> 0 <= v4 < 64 ->
  a2b_base64 0 l0 p0 (b64_char v1 :: b64_char v2 :: b64_char v3
                        :: b64_char v4 :: s)
  = cons (v1 * 4 + v2 / 16)
      <$> (cons (v2 mod 16 * 16 + v3 / 4)
             <$> (cons (v3 mod 4 * 64 + v4) <$> a2b_base64 0 0 0 s)).
Proof. intros. by rewrite !a2b_base64_data by lia. Qed.

Lemma a2b_base64_two_pads (l0 p0 v1 v2 : Z) :
  0 <= v1 < 64 -> 0 <= v2 < 64 ->
  a2b_base64 0 l0 p0 [b64_char v1; b64_char v2; 61; 61]
  = Some [v1 * 4 + v2 / 16].
Proof. intros. by rewrite !a2b_base64_data by lia. Qed.

Lemma a2b_base64_one_pad (l0 p0 v1 v2 v3 : Z) :
  0 <= v1 < 64 -> 0 <= v2 < 64 -> 0 <= v3 < 64 ->
  a2b_base64 0 l0 p0 [b64_char v1; b64_char v2; b64_char v3; 61]
  = Some [v1 * 4 + v2 / 16; v2 mod 16 * 16 + v3 / 4].
Proof. intros. by rewrite !a2b_base64_data by lia. Qed.

Lemma b64encode_ascii (bs : pybytes) :
  Forall is_byte bs -> Forall is_ascii (b64encode bs).
Proof.
  remember (length bs) as n eqn:Hn. revert bs Hn.
  induction n as [n IH] using lt_wf_ind. intros bs Hn Hb.
  assert (Hc : forall v, 0 <= v < 64 -> is_ascii (b64_char v))
    by (intros v Hv; by apply b64_value_char).
  assert (Hp : is_ascii 61) by (unfold is_ascii; lia).
  destruct bs as [|a [|b [|c rest]]]; [constructor|..].
  - apply Forall_cons in Hb as [Ha _]. unfold is_byte in Ha.
    cbn [b64encode]. repeat constructor; try done;
      apply Hc; pose proof (Z.mod_pos_bound a 4);
      pose proof (Z.div_lt_upper_bound a 4 64); pose proof (Z.div_pos a 4); lia.
  - apply Forall_cons in Hb as [Ha Hb]. apply Forall_cons in Hb as [Hb _].
    unfold is_byte in *. cbn [b64encode].
    pose proof (Z.mod_pos_bound a 4). pose proof (Z.mod_pos_bound b 16).
    pose proof (Z.div_lt_upper_bound a 4 64). pose proof (Z.div_pos a 4).
    pose proof (Z.div_lt_upper_bound b 16 16). pose proof (Z.div_pos b 16).
    repeat constructor; try done; apply Hc; lia.
  - apply Forall_cons in Hb as [Ha Hb]. apply Forall_cons in Hb as [Hb Hr].
    apply Forall_cons in Hr as [Hcc Hr].
    unfold is_byte in *. cbn [b64encode].
    pose proof (Z.mod_pos_bound a 4). pose proof (Z.mod_pos_bound b 16).
    pose proof (Z.mod_pos_bound c 64).
    pose proof (Z.div_lt_upper_bound a 4 64). pose proof (Z.div_pos a 4).
    pose proof (Z.div_lt_upper_bound b 16 16). pose proof (Z.div_pos b 16).
    pose proof (Z.div_lt_upper_bound c 64 4). pose proof (Z.div_pos c 64).
    repeat (apply Forall_cons; split); try (apply Hc; lia).
    apply (IH (length rest)); [subst n; simpl; lia|done|done].
Qed.

Lemma b64decode_encode (bs : pybytes) :
  Forall is_byte bs -> b64decode (b64encode bs) = Some bs.
Proof.
  unfold b64decode.
  remember (length bs) as n eqn:Hn. revert bs Hn.
  induction n as [n IH] using lt_wf_ind. intros bs Hn Hb.
  destruct bs as [|a [|b [|c rest]]]; [reflexivity|..].
  - apply Forall_cons in Hb as [Ha _]. unfold is_byte in Ha.
    cbn [b64encode].
    rewrite a2b_base64_two_pads by (Z.div_mod_to_equations; lia).
    do 2 f_equal. Z.div_mod_to_equations; lia.
  - apply Forall_cons in Hb as [Ha Hb]. apply Forall_cons in Hb as [Hb _].
    unfold is_byte in *. cbn [b64encode].
    rewrite a2b_base64_one_pad by (Z.div_mod_to_equations; lia).
    f_equal. f_equal; [|f_equal]; Z.div_mod_to_equations; lia.
  - apply Forall_cons in Hb as [Ha Hb]. apply Forall_cons in Hb as [Hb Hr].
    apply Forall_cons in Hr as [Hc Hr]. unfold is_byte in *.
    cbn [b64encode].
    rewrite a2b_base64_quad by (Z.div_mod_to_equations; lia).
    rewrite (IH (length rest)); [|subst n; simpl; lia|done|done].
    cbn [fmap option_fmap option_map].
    f_equal. f_equal; [|f_equal; [|f_equal]]; Z.div_mod_to_equations; lia.
Qed.

Lemma utf8_decode_ascii (bs : pybytes) :
  Forall is_ascii bs -> utf8_decode bs = Some bs.
Proof.
  intros Hb. apply utf8_decode_encode. by apply utf8_encode_ascii.
Qed.

Lemma utf8_encode_char_ascii (c : Z) :
  is_ascii c -> utf8_encode_char c = Some [c].
Proof. unfold is_ascii, utf8_encode_char. intros Hc. by decide_tests. Qed.

Lemma utf8_encode_total (s : pystr) :
  Forall (fun c => is_Some (utf8_encode_char c)) s ->
  is_Some (utf8_encode s).
Proof.
  induction 1 as [|c s [b Hb] _ [bs IH]]; simpl; [by eexists|].
  rewrite Hb, IH. by eexists.
Qed.

(** ** The cipher *)

Section Cipher.
Context `{Runtime}.

Lemma decrypt_encrypt_char (shift c : Z) :
  plain c ->
  decrypt_char shift (encrypt_char shift c) = c
  /\ is_Some (utf8_encode_char (encrypt_char shift c)).
Proof.
  intros [Henc Hcase]. unfold encrypt_char, decrypt_char.
  destruct (islower c) eqn:El.
  - assert (Ha : is_ascii c) by (by apply Hcase).
    rewrite (islower_ascii c Ha) in El.
    apply andb_true_iff in El as [Hl Hu].
    apply Z.leb_le in Hl. apply Z.leb_le in Hu.
    pose proof (Z.mod_pos_bound (c - 97 + shift) 26 ltac:(lia)) as Hm.
    assert (Ha' : is_ascii ((c - 97 + shift) mod 26 + 97))
      by (unfold is_ascii; lia).
    rewrite (islower_ascii _ Ha').
    rewrite (proj2 (Z.leb_le 97 _)), (proj2 (Z.leb_le _ 122)) by lia.
    cbn [andb]. split; [|by rewrite utf8_encode_char_ascii].
    replace ((c - 97 + shift) mod 26 + 97 - 97 - shift)
      with ((c - 97 + shift) mod 26 - shift) by lia.
    rewrite Zminus_mod_idemp_l.
    replace (c - 97 + shift - shift) with (c - 97) by lia.
    rewrite Z.mod_small by lia. lia.
  - destruct (isupper c) eqn:Eu.
    + assert (Ha : is_ascii c) by (by apply Hcase).
      rewrite (isupper_ascii c Ha) in Eu.
      apply andb_true_iff in Eu as [Hl Hu].
      apply Z.leb_le in Hl. apply Z.leb_le in Hu.
      pose proof (Z.mod_pos_bound (c - 65 + shift) 26 ltac:(lia)) as Hm.
      assert (Ha' : is_ascii ((c - 65 + shift) mod 26 + 65))
        by (unfold is_ascii; lia).
      rewrite (islower_ascii _ Ha'), (isupper_ascii _ Ha').
      rewrite (proj2 (Z.leb_gt 97 _)), (proj2 (Z.leb_le 65 _)),
        (proj2 (Z.leb_le _ 90)) by lia.
      cbn [andb]. split; [|by rewrite utf8_encode_char_ascii].
      replace ((c - 65 + shift) mod 26 + 65 - 65 - shift)
        with ((c - 65 + shift) mod 26 - shift) by lia.
      rewrite Zminus_mod_idemp_l.
      replace (c - 65 + shift - shift) with (c - 65) by lia.
      rewrite Z.mod_small by lia. lia.
    + by rewrite El, Eu.
Qed.

Lemma decrypt_encrypt_text (shift : Z) (text : pystr) :
  Forall plain text ->
  map (decrypt_char shift) (map (encrypt_char shift) text) = text
  /\ is_Some (utf8_encode (map (encrypt_char shift) text)).
Proof.
  intros Hp. split.
  - induction Hp as [|c s Hc _ IH]; [reflexivity|]. simpl.
    rewrite IH. by rewrite (proj1 (decrypt_encrypt_char shift c Hc)).
  - apply utf8_encode_total. apply Forall_map.
    eapply Forall_impl; [exact Hp|].
    intros c Hc. by apply decrypt_encrypt_char.
Qed.

(** C6 (as amended).  For a text of plain characters and any password,
    encoding returns a string from which decoding with the same password
    gives the text back.  Decoding returns a string for every input: the
    sentinel when the input cannot be encoded, when the base64 decoder
    rejects it or when the decoded octets are not UTF-8, and the shifted
    decoded text otherwise. *)
Theorem decrypt_encrypt_content (text password : pystr) :
  Forall plain text ->
  (exists encrypted,
      encrypt_content text password = Ok encrypted
      /\ decrypt_content encrypted password = text)
  /\ forall encrypted pw : pystr,
       match bs ← str_encode encrypted;
             raw ← base64_b64decode bs;
             bytes_decode raw with
       | Ok decoded =>
           decrypt_content encrypted pw
           = map (decrypt_char (shift_of pw)) decoded
       | Raise _ => decrypt_content encrypted pw = decryption_failed
       end.
Proof.
  intros Hp. split.
  - destruct (decrypt_encrypt_text (shift_of password) text Hp)
      as [Hback [bs Hbs]].
    pose proof (utf8_encode_bytes _ _ Hbs) as Hbytes.
    pose proof (b64encode_ascii _ Hbytes) as Hascii.
    exists (b64encode bs). unfold encrypt_content, decrypt_content, str_encode,
      bytes_decode, base64_b64decode.
    rewrite Hbs. cbn [mbind result_bind].
    rewrite (utf8_decode_ascii _ Hascii). split; [reflexivity|].
    rewrite (utf8_encode_ascii _ Hascii). cbn [mbind result_bind].
    rewrite (b64decode_encode _ Hbytes). cbn [mbind result_bind].
    rewrite (utf8_decode_encode _ _ Hbs). exact Hback.
  - intros encrypted pw. unfold decrypt_content.
    destruct (str_encode encrypted) as [bs|]; cbn [mbind result_bind];
      [|reflexivity].
    destruct (base64_b64decode bs) as [raw|]; cbn [mbind result_bind];
      [|reflexivity].
    by destruct (bytes_decode raw).
Qed.

End Cipher.

Lemma plain_ascii `{Runtime} (c : Z) : is_ascii c -> plain c.
Proof.
  intros Hc. split; [|done]. rewrite (utf8_encode_char_ascii c Hc). by eexists.
Qed.

(** ["Hello, World!"] under the password ["key"]. *)
Lemma decrypt_encrypt_content_witness :
  exists encrypted,
    encrypt_content (py "Hello, World!") (py "key") = Ok encrypted
    /\ decrypt_content encrypted (py "key") = py "Hello, World!".
Proof.
  refine (proj1 (decrypt_encrypt_content (py "Hello, World!") (py "key") _)).
  eapply Forall_impl; [|apply plain_ascii].
  repeat constructor; by vm_compute.
Defined.

(** C6, the claim as it stands fails.  Decoding input that is no base64
    at all returns the empty string, not the sentinel; and a letter
    outside ASCII does not come back from decoding its encoding. *)
Lemma decrypt_content_takes_garbage :
  decrypt_content (py "!!!!") (py "key") = []
  /\ decryption_failed <> []
  /\ encrypt_content [233] [] = Ok (py "Zw==")
  /\ decrypt_content (py "Zw==") [] = py "g"
  /\ py "g" <> [233].
Proof. vm_compute. done. Qed.

(** * Further properties *)

(** ** The cursor *)

Lemma in_range_iff {A} (idx : Z) (l : list A) :
  in_range idx l = true <-> 0 <= idx < len l.
Proof. unfold in_range. lia. Qed.

Lemma cursor_set_document (app : CopyAppTUI) (i : nat) (d : DocumentTab) :
  in_range (current_doc_index app) (documents app) = true ->
  in_range (current_doc_index (set_document app i d))
    (documents (set_document app i d)) = true.
Proof. unfold in_range, len. simpl. by rewrite length_insert. Qed.

Lemma cursor_append_document (app : CopyAppTUI) (d : DocumentTab) :
  in_range (current_doc_index (append_document app d))
    (documents (append_document app d)) = true.
Proof.
  apply in_range_iff. unfold append_document, len.
  cbn [documents current_doc_index]. rewrite length_app. cbn [length]. lia.
Qed.

Lemma cursor_pop_document (app : CopyAppTUI) (idx : Z) :
  in_range (current_doc_index app) (documents app) = true ->
  in_range idx (documents app) = true -> 1 < len (documents app) ->
  in_range (current_doc_index (pop_document app idx))
    (documents (pop_document app idx)) = true.
Proof.
  rewrite !in_range_iff. unfold len. simpl. intros Hc Hi Hl.
  rewrite length_delete by (apply lookup_lt_is_Some_2; lia).
  destruct (Z.leb_spec idx (current_doc_index app)); lia.
Qed.

Lemma cursor_assign_content (app : CopyAppTUI) (i : nat) (doc : DocumentTab)
    (new_content : pystr) (out ok : list Msg) :
  in_range (current_doc_index app) (documents app) = true ->
  let app' := app_after (assign_content app i doc new_content out ok) in
  in_range (current_doc_index app') (documents app') = true.
Proof.
  intros Hc. unfold assign_content.
  destruct (str_encode new_content); by apply cursor_set_document.
Qed.

Lemma cursor_except_Exception (app : CopyAppTUI) (report : pystr -> Msg)
    (body : result (CopyAppTUI * list Msg)) :
  in_range (current_doc_index app) (documents app) = true ->
  (forall app' out, body = Ok (app', out) ->
     in_range (current_doc_index app') (documents app') = true) ->
  let app' := app_after (except_Exception app report body) in
  in_range (current_doc_index app') (documents app') = true.
Proof.
  intros Hc Hb. unfold except_Exception. destruct body as [[app' out]|e].
  - by eapply Hb.
  - by destruct (is_Exception e).
Qed.

Lemma cursor_save_to (w : World) (app : CopyAppTUI) (doc : DocumentTab)
    (path : pystr) (out : list Msg) :
  in_range (current_doc_index app) (documents app) = true ->
  let app' := app_after (save_to w app doc path out) in
  in_range (current_doc_index app') (documents app') = true.
Proof.
  intros Hc. unfold save_to. destruct (write_text _ _ _) as [e|].
  - by destruct (is_Exception e).
  - by apply cursor_set_document.
Qed.

Section Cursor.
Context `{Runtime}.

Lemma step_cursor (w : World) (c : Command) (app : CopyAppTUI) :
  in_range (current_doc_index app) (documents app) = true ->
  let app' := app_after (step w c app) in
  in_range (current_doc_index app') (documents app') = true.
Proof.
  intros Hc. destruct c; cbn [step].
  - unfold open_file. apply cursor_except_Exception; [done|]. intros app' out.
    destruct (resolve w filename) as [path|]; simpl; [|done].
    destruct (path_exists w path); simpl; [|by intros [= <- _]].
    destruct (read_text w path); simpl; [|done].
    destruct (DocumentTab_new _ _ _); simpl; [|done].
    intros [= <- _]. apply cursor_append_document.
  - unfold save_file. destruct (get_current_document app); [|done].
    destruct filename as [[|c f]|];
      repeat match goal with
      | |- context [match ?x with _ => _ end] =>
          lazymatch x with
          | save_to _ _ _ _ _ => fail
          | _ => destruct x eqn:?
          end
      end; simpl; try done; by apply cursor_save_to.
  - unfold new_document. destruct (DocumentTab_new _ _ _); [|done].
    apply cursor_append_document.
  - unfold switch_document. destruct (int_of_str index) as [n|]; [|done].
    destruct (in_range (n - 1) (documents app)) eqn:E; [|done].
    destruct (getitem _ _); exact E.
  - unfold close_document. destruct (Z.leb_spec (len (documents app)) 1); [done|].
    destruct (match index with Some s => _ | None => _ end) as [idx|]; [|done].
    destruct (in_range idx (documents app)) eqn:Er; [|done].
    destruct (getitem (documents app) idx) as [doc|]; [|done].
    destruct (modified doc).
    + destruct (input w); [|done]. case_bool_decide; [|done].
      by apply cursor_pop_document.
    + by apply cursor_pop_document.
  - unfold edit_document. destruct (get_current_document app); [|done].
    destruct (read_lines _) as [lines|e].
    + case_bool_decide; [done|]. by apply cursor_assign_content.
    + by destruct (exn_kind e).
  - unfold replace_in_document. destruct (get_current_document app); [|done].
    case_bool_decide; [done|]. by apply cursor_assign_content.
  - unfold snippet_add. destruct (read_lines _) as [lines|e].
    + by destruct (truthy _).
    + by destruct (exn_kind e).
  - unfold snippet_use. destruct (snippets app); [done|].
    destruct (input w) as [typed|e]; [|by destruct (exn_kind e)].
    destruct (int_of_str typed) as [n|]; [|done].
    destruct (in_range (n - 1) _); [|done].
    destruct (get_current_document app) as [doc|e].
    + destruct (getitem _ _) as [s|e]; [by apply cursor_set_document|].
      by destruct (exn_kind e).
    + by destruct (exn_kind e).
  - unfold snippet_delete. destruct (snippets app); [done|].
    destruct (input w) as [typed|e]; [|by destruct (exn_kind e)].
    destruct (int_of_str typed) as [n|]; [|done].
    by destruct (in_range (n - 1) _).
  - unfold paste_from_clipboard. destruct (clipboard w) as [[|c t]| |e]; try done.
    + apply cursor_except_Exception; [done|]. intros app' out.
      destruct (DocumentTab_new _ _ _); simpl; [|done].
      intros [= <- _]. apply cursor_append_document.
    + by apply cursor_except_Exception.
  - unfold fetch_url. destruct (fetch_text w _) as [text|e].
    + destruct (DocumentTab_new _ _ _) as [doc|e].
      * apply cursor_append_document.
      * by destruct (is_Exception e).
    + by destruct (is_Exception e).
  - unfold on_text_changed. rewrite Hc.
    destruct (getitem _ _); [|done]. case_bool_decide; [done|].
    by apply cursor_assign_content.
  - unfold gui_switch_document.
    destruct (in_range index _) eqn:E; [exact E|exact Hc].
  - done.
Qed.

Lemma reachable_in_range (app : CopyAppTUI) :
  reachable app -> in_range (current_doc_index app) (documents app) = true.
Proof.
  induction 1 as [loaded app Hinit|w c app _ IH].
  - by apply init_documents in Hinit as (d & -> & _ & ->).
  - by apply step_cursor.
Qed.

(** X1.  In every reachable state the cursor is a position of the list, so
    [get_current_document] never takes its fallback [documents[0]]: it
    returns [documents[current_doc_index]]. *)
Theorem cursor_always_in_range (app : CopyAppTUI) :
  reachable app ->
  in_range (current_doc_index app) (documents app) = true
  /\ get_current_document app = getitem (documents app) (current_doc_index app).
Proof.
  intros Hr. pose proof (reachable_in_range app Hr) as Hc.
  split; [exact Hc|]. unfold get_current_document. by rewrite Hc.
Qed.

End Cursor.

(** ** The statistics of a new document *)

Lemma split_char_nonempty (sep : Z) (s : pystr) : split_char sep s <> [].
Proof.
  induction s as [|c s IH]; simpl; [done|].
  destruct (c =? sep); [done|]. by destruct (split_char sep s).
Qed.

Lemma split_char_length (sep : Z) (s : pystr) :
  length (split_char sep s) = S (count_occ Z.eq_dec s sep).
Proof.
  induction s as [|c s IH]; simpl; [done|].
  destruct (Z.eqb_spec c sep) as [->|Hne].
  - destruct (Z.eq_dec sep sep); [|done]. simpl. by rewrite IH.
  - destruct (Z.eq_dec c sep); [done|].
    pose proof (split_char_nonempty sep s).
    destruct (split_char sep s); [done|]. exact IH.
Qed.

Lemma utf8_encode_replace_strict (s : pystr) (bs : pybytes) :
  utf8_encode s = Some bs -> utf8_encode_replace s = bs.
Proof.
  unfold utf8_encode_replace. revert bs.
  induction s as [|c s IH]; simpl; intros bs.
  - by intros [= <-].
  - destruct (utf8_encode_char c) as [b|]; [|done].
    destruct (utf8_encode s) as [bs'|]; [|done].
    intros [= <-]. by rewrite (IH bs').
Qed.

Section Documents.
Context `{Runtime}.

(** X2.  [DocumentTab(name, content, file_path)] raises [UnicodeEncodeError]
    when the content cannot be encoded as UTF-8, although [data_raw] is
    encoded with [errors='replace']. Otherwise the document holds the
    arguments, is unmodified at version 1, [data_raw] is the UTF-8 encoding
    of the content and [checksum] its MD5, [char_count] is the number of
    code points and [line_count] one more than the number of newline
    characters (1 for the empty content). *)
Theorem DocumentTab_new_stats (n c : pystr) (p : option pystr) :
  match utf8_encode c with
  | None => DocumentTab_new n c p = Raise (encode_error c)
  | Some bs =>
      exists d,
        DocumentTab_new n c p = Ok d
        /\ name d = n /\ content d = c /\ file_path d = p
        /\ modified d = false /\ version d = 1 /\ data_type d = py "raw"
        /\ data_raw d = bs /\ checksum d = md5_hexdigest bs
        /\ char_count d = len c
        /\ word_count d = len (str_split_ws c)
        /\ line_count d = 1 + Z.of_nat (count_occ Z.eq_dec c 10)
  end.
Proof.
  unfold DocumentTab_new, update_stats, str_encode. cbn [data_raw content set_data_raw].
  destruct (utf8_encode c) as [bs|] eqn:E; [|done].
  eexists. split; [reflexivity|]. cbn.
  rewrite (utf8_encode_replace_strict c bs E), split_char_length.
  repeat split; try done. lia.
Qed.

End Documents.

(** ** Closing *)

Lemma getitem_in_range {A} (l : list A) (idx : Z) :
  in_range idx l = true -> exists a, getitem l idx = Ok a /\ l !! Z.to_nat idx = Some a.
Proof.
  intros Hr. apply in_range_iff in Hr. unfold len in Hr.
  destruct (lookup_lt_is_Some_2 l (Z.to_nat idx)) as [a Ha]; [lia|].
  exists a. split; [|exact Ha]. apply getitem_lookup; [lia|exact Ha].
Qed.

Lemma get_current_document_eq (app app' : CopyAppTUI) :
  documents app <> [] ->
  documents app' !! current_pos app' = documents app !! current_pos app ->
  get_current_document app' = get_current_document app.
Proof.
  intros Hne Hl. destruct (get_current_document_total app Hne) as [d Hd].
  rewrite Hd. apply get_current_document_lookup. rewrite Hl.
  by apply get_current_document_lookup.
Qed.

Lemma current_pos_in_range (app : CopyAppTUI) :
  in_range (current_doc_index app) (documents app) = true ->
  current_pos app = Z.to_nat (current_doc_index app).
Proof. intros Hr. unfold current_pos. by rewrite Hr. Qed.

(** What [close_document] does to the cursor: the document that was
    current stays current when another one is removed; when the current
    one is removed, the one before it becomes current (the next one when
    it was the first). *)
Lemma pop_document_current (app : CopyAppTUI) (idx : Z) :
  in_range (current_doc_index app) (documents app) = true ->
  in_range idx (documents app) = true -> 1 < len (documents app) ->
  get_current_document (pop_document app idx)
  = if idx =? current_doc_index app
    then getitem (documents app) (if idx =? 0 then 1 else idx - 1)
    else get_current_document app.
Proof.
  intros Hc Hi Hl.
  assert (Hc' : in_range (current_doc_index (pop_document app idx))
                  (documents (pop_document app idx)) = true).
  { apply in_range_iff. apply in_range_iff in Hc, Hi. unfold len in *. simpl.
    rewrite length_delete by (apply lookup_lt_is_Some_2; lia).
    destruct (Z.leb_spec idx (current_doc_index app)); lia. }
  apply in_range_iff in Hi. unfold len in Hi, Hl.
  destruct (getitem_in_range _ _ Hc') as (d & Hd & Hlk).
  unfold get_current_document at 1. rewrite Hc', Hd.
  simpl in Hlk. apply in_range_iff in Hc as Hcr. unfold len in Hcr.
  destruct (Z.eqb_spec idx (current_doc_index app)) as [->|Hne].
  - rewrite Z.leb_refl in Hlk. symmetry.
    destruct (Z.eqb_spec (current_doc_index app) 0) as [E0|E0].
    + apply getitem_lookup; [lia|]. rewrite E0 in Hlk. simpl in Hlk.
      by rewrite list_lookup_delete_ge in Hlk by lia.
    + apply getitem_lookup; [lia|].
      rewrite list_lookup_delete_lt in Hlk by lia.
      by replace (Z.max 0 (current_doc_index app - 1))
        with (current_doc_index app - 1) in Hlk by lia.
  - symmetry. unfold get_current_document. rewrite Hc.
    apply getitem_lookup; [lia|].
    destruct (Z.leb_spec idx (current_doc_index app)).
    + rewrite list_lookup_delete_ge in Hlk by lia.
      by replace (S (Z.to_nat (Z.max 0 (current_doc_index app - 1))))
        with (Z.to_nat (current_doc_index app)) in Hlk by lia.
    + by rewrite list_lookup_delete_lt in Hlk by lia.
Qed.

Section Closing.
Context `{Runtime}.

(** X4.  Closing a document other than the current one, by its number, never
    changes which document is current, whether the document is closed or the
    request is refused. *)
Theorem close_document_keeps_current (w : World) (s : pystr) (n : Z)
    (app : CopyAppTUI) :
  in_range (current_doc_index app) (documents app) = true ->
  int_of_str s = Some n -> n - 1 <> current_doc_index app ->
  get_current_document (app_after (close_document w (Some s) app))
  = get_current_document app.
Proof.
  intros Hc Hs Hne. unfold close_document.
  destruct (Z.leb_spec (len (documents app)) 1); [done|].
  rewrite Hs. simpl.
  destruct (in_range (n - 1) (documents app)) eqn:Er; [|done].
  destruct (getitem (documents app) (n - 1)) as [doc|]; [|done].
  assert (Hpop : get_current_document (pop_document app (n - 1))
                 = get_current_document app).
  { rewrite pop_document_current by done.
    by destruct (Z.eqb_spec (n - 1) (current_doc_index app)). }
  destruct (modified doc); [|exact Hpop].
  destruct (input w); [|done]. by case_bool_decide.
Qed.

(** X5.  Closing the current document makes the one before it current, or
    the one after it when it was the first. *)
Theorem close_current_document (w : World) (app : CopyAppTUI) (doc : DocumentTab) :
  in_range (current_doc_index app) (documents app) = true ->
  last (printed (close_document w None app)) = Some (Closed (name doc)) ->
  get_current_document (app_after (close_document w None app))
  = getitem (documents app)
      (if current_doc_index app =? 0 then 1 else current_doc_index app - 1).
Proof.
  intros Hc. unfold close_document.
  destruct (Z.leb_spec (len (documents app)) 1); [done|].
  rewrite Hc.
  destruct (getitem (documents app) (current_doc_index app)) as [d|]; [|done].
  assert (Hpop : get_current_document (pop_document app (current_doc_index app))
     = getitem (documents app)
         (if current_doc_index app =? 0 then 1 else current_doc_index app - 1)).
  { rewrite pop_document_current by done. by rewrite Z.eqb_refl. }
  destruct (modified d); [|by intros _].
  destruct (input w); [|done]. by case_bool_decide.
Qed.

End Closing.

(** ** Writing to the current document *)

Lemma only_current_refl (app : CopyAppTUI) : only_current app app.
Proof. by repeat split. Qed.

Lemma only_current_set (app : CopyAppTUI) (d : DocumentTab) :
  only_current app (set_document app (current_pos app) d).
Proof.
  repeat split; simpl.
  - by rewrite length_insert.
  - intros i Hi. by rewrite list_lookup_insert_ne.
Qed.

Lemma only_current_assign (app : CopyAppTUI) (doc : DocumentTab)
    (new_content : pystr) (out ok : list Msg) :
  only_current app
    (app_after (assign_content app (current_pos app) doc new_content out ok)).
Proof.
  unfold assign_content. destruct (str_encode new_content);
    apply only_current_set.
Qed.

Lemma only_current_save_to (w : World) (app : CopyAppTUI) (doc : DocumentTab)
    (path : pystr) (out : list Msg) :
  only_current app (app_after (save_to w app doc path out)).
Proof.
  unfold save_to. destruct (write_text _ _ _) as [e|].
  - destruct (is_Exception e); apply only_current_refl.
  - apply only_current_set.
Qed.

Section Writing.
Context `{Runtime}.

(** X6.  The operations that write to a document ([save], [edit], [replace],
    the insertion of a snippet, the editor widget of the GUI) write to the
    current one only: the number of documents, the cursor, the snippets and
    every document at another position are as before. *)
Theorem edits_touch_only_current (w : World) (c : Command) (app : CopyAppTUI) :
  edits_document c = true ->
  only_current app (app_after (step w c app)).
Proof.
  destruct c; try discriminate; intros _; cbn [step].
  - unfold save_file. destruct (get_current_document app); [|apply only_current_refl].
    destruct filename as [[|c f]|];
      repeat match goal with
      | |- context [match ?x with _ => _ end] =>
          lazymatch x with
          | save_to _ _ _ _ _ => fail
          | _ => destruct x eqn:?
          end
      end; simpl; try apply only_current_refl; apply only_current_save_to.
  - unfold edit_document. destruct (get_current_document app); [|apply only_current_refl].
    destruct (read_lines _) as [lines|e].
    + case_bool_decide; [apply only_current_refl|apply only_current_assign].
    + destruct (exn_kind e); apply only_current_refl.
  - unfold replace_in_document.
    destruct (get_current_document app); [|apply only_current_refl].
    case_bool_decide; [apply only_current_refl|apply only_current_assign].
  - unfold snippet_use. destruct (snippets app); [apply only_current_refl|].
    destruct (input w) as [typed|e];
      [|destruct (exn_kind e); apply only_current_refl].
    destruct (int_of_str typed) as [n|]; [|apply only_current_refl].
    destruct (in_range (n - 1) _); [|apply only_current_refl].
    destruct (get_current_document app) as [doc|e].
    + destruct (getitem _ _) as [s|e]; [apply only_current_set|].
      destruct (exn_kind e); apply only_current_refl.
    + destruct (exn_kind e); apply only_current_refl.
  - unfold on_text_changed.
    destruct (in_range (current_doc_index app) (documents app)) eqn:Er;
      [|apply only_current_refl].
    destruct (getitem _ _); [|apply only_current_refl].
    case_bool_decide; [apply only_current_refl|].
    replace (Z.to_nat (current_doc_index app)) with (current_pos app)
      by (unfold current_pos; by rewrite Er).
    apply only_current_assign.
Qed.

(** X7.  [switch_document] never raises and never touches the documents. A
    number between 1 and the number of documents makes the document of that
    number current; anything else leaves the cursor where it is. *)
Theorem switch_document_outcome (index : pystr) (app : CopyAppTUI) :
  let out := switch_document index app in
  raised out = None
  /\ documents (app_after out) = documents app
  /\ snippets (app_after out) = snippets app
  /\ match int_of_str index with
     | None => out = returns app [InvalidNumber]
     | Some n =>
         if (1 <=? n) && (n <=? len (documents app))
         then exists d,
                documents app !! Z.to_nat (n - 1) = Some d
                /\ current_doc_index (app_after out) = n - 1
                /\ get_current_document (app_after out) = Ok d
                /\ printed out = [Switched (name d)]
         else out = returns app [InvalidDocument (len (documents app))]
     end.
Proof.
  cbv zeta. unfold switch_document.
  destruct (int_of_str index) as [n|]; [|done].
  destruct (in_range (n - 1) (documents app)) eqn:Er.
  - destruct (getitem_in_range _ _ Er) as (d & Hd & Hl). rewrite Hd.
    apply in_range_iff in Er as Hr.
    replace ((1 <=? n) && (n <=? len (documents app))) with true by lia.
    repeat split. exists d. repeat split; try done.
    unfold get_current_document. simpl. by rewrite Er.
  - replace ((1 <=? n) && (n <=? len (documents app))) with false; [done|].
    unfold in_range in Er. lia.
Qed.

End Writing.

(** ** Opening and saving again *)

Lemma get_current_document_append (app : CopyAppTUI) (d : DocumentTab) :
  get_current_document (append_document app d) = Ok d.
Proof.
  unfold get_current_document. rewrite cursor_append_document.
  unfold append_document, len. cbn [documents current_doc_index].
  rewrite length_app. cbn [length].
  apply getitem_lookup; [lia|].
  replace (Z.to_nat _) with (length (documents app) + 0)%nat by lia.
  by rewrite lookup_app_r, Nat.add_comm, Nat.add_sub by lia.
Qed.

Lemma save_to_saved (w : World) (app : CopyAppTUI) (doc : DocumentTab)
    (p path : pystr) (out : list Msg) :
  last out <> Some (Saved path) ->
  last (printed (save_to w app doc p out)) = Some (Saved path) ->
  p = path /\ write_text w path (content doc) = None
  /\ save_to w app doc p out
     = returns (set_document app (current_pos app)
                  (set_saved doc path (path_name path))) (out ++ [Saved path]).
Proof.
  intros Hout. unfold save_to.
  destruct (write_text w p (content doc)) as [e|] eqn:Ew.
  - destruct (is_Exception e); simpl; [by rewrite last_snoc|done].
  - simpl. rewrite last_snoc. intros [= ->]. done.
Qed.

Section Files.
Context `{Runtime}.

Lemma DocumentTab_new_file_path (n c : pystr) (p : option pystr)
    (d : DocumentTab) :
  DocumentTab_new n c p = Ok d -> file_path d = p.
Proof.
  unfold DocumentTab_new, update_stats. destruct (str_encode _); [|done].
  by intros [= <-].
Qed.

(** X3.  [open_file] either leaves the state as it is, or appends one
    document and makes it current: an unmodified document that holds the
    text read from the resolved path and is named after the last component
    of that path. *)
Theorem open_file_outcome (w : World) (filename : pystr) (app : CopyAppTUI) :
  let out := open_file w filename app in
  app_after out = app
  \/ exists path text d,
       resolve w filename = Ok path /\ path_exists w path = true
       /\ read_text w path = Ok text
       /\ out = returns (append_document app d)
                  [Opened (path_name path) (len text)]
       /\ documents (app_after out) = documents app ++ [d]
       /\ get_current_document (app_after out) = Ok d
       /\ name d = path_name path /\ content d = text
       /\ file_path d = Some path /\ modified d = false.
Proof.
  cbv zeta. unfold open_file.
  destruct (resolve w filename) as [path|e] eqn:Er; simpl;
    [|left; by destruct (is_Exception e)].
  destruct (path_exists w path) eqn:Ep; simpl; [|by left].
  destruct (read_text w path) as [text|e] eqn:Et; simpl;
    [|left; by destruct (is_Exception e)].
  destruct (DocumentTab_new (path_name path) text (Some path)) as [d|e] eqn:Ed;
    simpl; [|left; by destruct (is_Exception e)].
  pose proof (DocumentTab_new_file_path _ _ _ _ Ed) as Hpath.
  apply DocumentTab_new_fresh in Ed as ((_ & Hmod) & Hcontent & Hname & _).
  right. exists path, text, d. repeat split; try done.
  apply get_current_document_append.
Qed.

(** What is left of a save that reported [Saved path]. *)
Lemma save_file_saved (w : World) (filename : option pystr) (app : CopyAppTUI)
    (path : pystr) :
  last (printed (save_file w filename app)) = Some (Saved path) ->
  exists doc,
    get_current_document app = Ok doc
    /\ write_text w path (content doc) = None
    /\ app_after (save_file w filename app)
       = set_document app (current_pos app)
           (set_saved doc path (path_name path)).
Proof.
  unfold save_file.
  destruct (get_current_document app) as [doc|e] eqn:Ed; [|done].
  intros Hl. exists doc. split; [done|]. revert Hl.
  destruct filename as [[|c f]|];
    repeat match goal with
      | |- context [match ?x with _ => _ end] =>
          lazymatch x with
          | save_to _ _ _ _ _ => fail
          | _ => destruct x eqn:?
          end
      end; simpl; try done;
    intros Hl; apply save_to_saved in Hl as (_ & Hw & ->); done.
Qed.

(** X8.  After a save that reported [Saved path], a save without a file name
    does not ask for one: it writes the same content to [path] again, and
    whether that write succeeds or not the state stays as the first save
    left it. *)
Theorem save_file_again (w w' : World) (filename : option pystr)
    (app : CopyAppTUI) (path : pystr) :
  last (printed (save_file w filename app)) = Some (Saved path) ->
  let app1 := app_after (save_file w filename app) in
  let out := save_file w' None app1 in
  exists doc,
    get_current_document app = Ok doc
    /\ app_after out = app1
    /\ match write_text w' path (content doc) with
       | None => printed out = [Saved path] /\ raised out = None
       | Some e =>
           if is_Exception e
           then printed out = [ErrorSaving (exn_str e)] /\ raised out = None
           else printed out = [] /\ raised out = Some e
       end.
Proof.
  intros Hs. cbv zeta.
  apply save_file_saved in Hs as (doc & Hd & _ & ->).
  exists doc. split; [exact Hd|].
  pose proof (get_current_document_set app doc
                (set_saved doc path (path_name path)) Hd) as Hd1.
  unfold save_file. rewrite Hd1. cbn [file_path set_saved].
  unfold save_to. cbn [content set_saved].
  destruct (write_text w' path (content doc)) as [e|].
  - by destruct (is_Exception e).
  - split; [|done]. cbn [app_after returns].
    rewrite current_pos_set_document. unfold set_document at 1.
    cbn [documents current_doc_index snippets set_document].
    unfold set_document. f_equal.
    rewrite list_insert_insert_eq. done.
Qed.

End Files.

(** ** The shape of a ciphertext *)

Lemma b64encode_alphabet (bs : pybytes) :
  Forall is_byte bs -> Forall is_b64 (b64encode bs).
Proof.
  remember (length bs) as n eqn:Hn. revert bs Hn.
  induction n as [n IH] using lt_wf_ind. intros bs Hn Hb.
  assert (Hc : forall v, 0 <= v < 64 -> is_b64 (b64_char v)).
  { intros v Hv. left. destruct (b64_value_char v Hv) as [-> _]. by eexists. }
  assert (Hp : is_b64 61) by (by right).
  destruct bs as [|a [|b [|c rest]]]; [constructor|..].
  - apply Forall_cons in Hb as [Ha _]. unfold is_byte in Ha.
    cbn [b64encode].
    pose proof (Z.mod_pos_bound a 4).
    pose proof (Z.div_lt_upper_bound a 4 64). pose proof (Z.div_pos a 4).
    repeat (apply Forall_cons; split); try apply Forall_nil_2; try exact Hp;
      apply Hc; lia.
  - apply Forall_cons in Hb as [Ha Hb]. apply Forall_cons in Hb as [Hb _].
    unfold is_byte in *. cbn [b64encode].
    pose proof (Z.mod_pos_bound a 4). pose proof (Z.mod_pos_bound b 16).
    pose proof (Z.div_lt_upper_bound a 4 64). pose proof (Z.div_pos a 4).
    pose proof (Z.div_lt_upper_bound b 16 16). pose proof (Z.div_pos b 16).
    repeat (apply Forall_cons; split); try apply Forall_nil_2; try exact Hp;
      apply Hc; lia.
  - apply Forall_cons in Hb as [Ha Hb]. apply Forall_cons in Hb as [Hb Hr].
    apply Forall_cons in Hr as [Hcc Hr].
    unfold is_byte in *. cbn [b64encode].
    pose proof (Z.mod_pos_bound a 4). pose proof (Z.mod_pos_bound b 16).
    pose proof (Z.mod_pos_bound c 64).
    pose proof (Z.div_lt_upper_bound a 4 64). pose proof (Z.div_pos a 4).
    pose proof (Z.div_lt_upper_bound b 16 16). pose proof (Z.div_pos b 16).
    pose proof (Z.div_lt_upper_bound c 64 4). pose proof (Z.div_pos c 64).
    repeat (apply Forall_cons; split); try (apply Hc; lia).
    apply (IH (length rest)); [subst n; simpl; lia|done|done].
Qed.

Lemma b64encode_length (bs : pybytes) :
  len (b64encode bs) = 4 * ((len bs + 2) / 3).
Proof.
  unfold len. remember (length bs) as n eqn:Hn. revert bs Hn.
  induction n as [n IH] using lt_wf_ind. intros bs Hn.
  destruct bs as [|a [|b [|c rest]]]; subst n; try reflexivity.
  pose proof (IH (length rest) ltac:(simpl; lia) rest eq_refl) as IHr.
  cbn [b64encode length]. rewrite !Nat2Z.inj_succ, IHr.
  Z.div_mod_to_equations. lia.
Qed.

Lemma sum_Permutation (l l' : list Z) :
  l ≡ₚ l' -> fold_right Z.add 0 l = fold_right Z.add 0 l'.
Proof. induction 1; simpl; lia. Qed.

Section CipherShape.
Context `{Runtime}.

(** X9.  [encrypt_content] raises [UnicodeEncodeError] when the shifted text
    cannot be encoded as UTF-8. Otherwise it returns the base64 text of the
    UTF-8 octets [bs] of the shifted text: characters of the base64 alphabet
    and the padding ['='] only, four for every three octets. *)
Theorem encrypt_content_shape (text password : pystr) :
  match utf8_encode (map (encrypt_char (shift_of password)) text) with
  | None =>
      encrypt_content text password
      = Raise (encode_error (map (encrypt_char (shift_of password)) text))
  | Some bs =>
      encrypt_content text password = Ok (b64encode bs)
      /\ Forall is_b64 (b64encode bs)
      /\ len (b64encode bs) = 4 * ((len bs + 2) / 3)
  end.
Proof.
  unfold encrypt_content, str_encode, bytes_decode.
  destruct (utf8_encode _) as [bs|] eqn:E; cbn [mbind result_bind]; [|done].
  pose proof (utf8_encode_bytes _ _ E) as Hb.
  rewrite (utf8_decode_ascii _ (b64encode_ascii _ Hb)).
  split; [done|]. split; [by apply b64encode_alphabet|apply b64encode_length].
Qed.

(** X10.  The password enters the cipher through [sum(ord(c)) % 26] only:
    every password acts as one of the 26 one-character passwords [chr(0)] to
    [chr(25)]. *)
Theorem encrypt_content_key_space (password : pystr) :
  exists k : Z,
    0 <= k < 26
    /\ (forall text, encrypt_content text password = encrypt_content text [k])
    /\ (forall encrypted,
          decrypt_content encrypted password = decrypt_content encrypted [k]).
Proof.
  exists (shift_of password).
  assert (Hk : 0 <= shift_of password < 26)
    by (unfold shift_of; apply Z.mod_pos_bound; lia).
  assert (Hs : shift_of [shift_of password] = shift_of password).
  { unfold shift_of at 1. simpl. rewrite Z.add_0_r. by apply Z.mod_small. }
  split; [exact Hk|].
  split; intros; unfold encrypt_content, decrypt_content; by rewrite Hs.
Qed.

(** X11.  A text encoded under a password is decoded by every password with
    the same letters in another order. *)
Theorem decrypt_with_anagram (text password password' : pystr) :
  Forall plain text -> password ≡ₚ password' ->
  exists encrypted,
    encrypt_content text password = Ok encrypted
    /\ decrypt_content encrypted password' = text.
Proof.
  intros Hp Hperm.
  assert (Hs : shift_of password' = shift_of password).
  { unfold shift_of. by rewrite (sum_Permutation _ _ Hperm). }
  destruct (decrypt_encrypt_text (shift_of password) text Hp)
    as [Hback [bs Hbs]].
  pose proof (utf8_encode_bytes _ _ Hbs) as Hbytes.
  pose proof (b64encode_ascii _ Hbytes) as Hascii.
  exists (b64encode bs). unfold encrypt_content, decrypt_content, str_encode,
    bytes_decode, base64_b64decode.
  rewrite Hs, Hbs. cbn [mbind result_bind].
  rewrite (utf8_decode_ascii _ Hascii). split; [reflexivity|].
  rewrite (utf8_encode_ascii _ Hascii). cbn [mbind result_bind].
  rewrite (b64decode_encode _ Hbytes). cbn [mbind result_bind].
  rewrite (utf8_decode_encode _ _ Hbs). exact Hback.
Qed.

End CipherShape.

(** ** The order of the fetches *)

Section FetchOrder.
Context `{Runtime}.

Lemma collect_other (net : nat -> pystr -> Response) (urls : list pystr)
    (schedule : list nat) (results : gmap pystr pystr) (url : pystr) :
  (forall j, j ∈ schedule -> urls !! j <> Some url) ->
  fold_left (collect net urls) schedule results !! url = results !! url.
Proof.
  revert results. induction schedule as [|i schedule IH]; intros results Hn;
    [done|].
  simpl. rewrite IH by (intros j Hj; apply Hn; by right).
  destruct (urls !! i) as [u|] eqn:Hu.
  - rewrite (collect_insert _ _ _ _ _ Hu). apply lookup_insert_ne.
    intros ->. by apply (Hn i); [left|].
  - unfold collect. by rewrite Hu.
Qed.

(** X12.  When a URL is listed more than once, the entry of the result is
    the answer to the request that completed last. *)
Theorem fetch_last_completed_wins (net : nat -> pystr -> Response)
    (urls : list pystr) (max_workers : Z) (before after : list nat)
    (i : nat) (url : pystr) :
  0 < max_workers ->
  urls !! i = Some url ->
  (forall j, j ∈ after -> urls !! j <> Some url) ->
  exists results,
    fetch_multiple_urls net (before ++ i :: after) urls max_workers = Ok results
    /\ results !! url = Some (snd (fetch_single net i url)).
Proof.
  intros Hw Hu Hafter. unfold fetch_multiple_urls.
  destruct (Z.leb_spec max_workers 0); [lia|].
  eexists. split; [reflexivity|].
  rewrite fold_left_app. simpl. rewrite collect_other by done.
  rewrite (collect_insert _ _ _ _ _ Hu). apply lookup_insert_eq.
Qed.

End FetchOrder.

(** ** Cleaning white space *)

Lemma split_char_no_sep (sep : Z) (s : pystr) :
  sep ∉ s -> split_char sep s = [s].
Proof.
  induction s as [|c s IH]; intros Hs; [done|]. simpl.
  apply not_elem_of_cons in Hs as [Hc Hs].
  destruct (Z.eqb_spec c sep); [congruence|]. by rewrite IH.
Qed.

Lemma split_char_app (sep : Z) (p rest : pystr) :
  sep ∉ p -> split_char sep (p ++ sep :: rest) = p :: split_char sep rest.
Proof.
  induction p as [|c p IH]; intros Hp; simpl.
  - by rewrite Z.eqb_refl.
  - apply not_elem_of_cons in Hp as [Hc Hp].
    destruct (Z.eqb_spec c sep); [congruence|]. by rewrite IH.
Qed.

(** Splitting what was joined gives the lines back. *)
Lemma split_char_join (sep : Z) (lines : list pystr) :
  lines <> [] -> Forall (fun l => sep ∉ l) lines ->
  split_char sep (str_join [sep] lines) = lines.
Proof.
  induction lines as [|p [|q rest] IH]; intros Hne Hall; [done|..].
  - apply split_char_no_sep. by apply Forall_cons in Hall as [? _].
  - apply Forall_cons in Hall as [Hp Hall].
    change (str_join [sep] (p :: q :: rest))
      with (p ++ sep :: str_join [sep] (q :: rest)).
    rewrite split_char_app by done. by rewrite IH.
Qed.

(** No line of a split holds the separator. *)
Lemma split_char_lines (sep : Z) (s : pystr) :
  Forall (fun l => sep ∉ l) (split_char sep s).
Proof.
  induction s as [|c s IH]; simpl.
  - repeat constructor. apply not_elem_of_nil.
  - destruct (Z.eqb_spec c sep).
    + constructor; [apply not_elem_of_nil|exact IH].
    + destruct (split_char sep s) as [|w ws]; [repeat constructor|].
      * apply not_elem_of_cons. split; [congruence|apply not_elem_of_nil].
      * apply Forall_cons in IH as [Hw Hws]. constructor; [|exact Hws].
        apply not_elem_of_cons. split; [congruence|exact Hw].
Qed.

Section Whitespace.
Context `{Runtime}.

Lemma str_lstrip_idem (s : pystr) : str_lstrip (str_lstrip s) = str_lstrip s.
Proof.
  induction s as [|c s IH]; [done|]. simpl.
  destruct (isspace c) eqn:E; [exact IH|]. simpl. by rewrite E.
Qed.

Lemma str_lstrip_Forall (P : Z -> Prop) (s : pystr) :
  Forall P s -> Forall P (str_lstrip s).
Proof.
  induction 1 as [|c s Hc Hs IH]; [constructor|]. simpl.
  destruct (isspace c); [exact IH|by constructor].
Qed.

Lemma str_rstrip_idem (s : pystr) : str_rstrip (str_rstrip s) = str_rstrip s.
Proof. unfold str_rstrip. by rewrite rev_involutive, str_lstrip_idem. Qed.

Lemma str_rstrip_Forall (P : Z -> Prop) (s : pystr) :
  Forall P s -> Forall P (str_rstrip s).
Proof.
  intros Hs. unfold str_rstrip. apply Forall_rev, str_lstrip_Forall.
  by apply Forall_rev.
Qed.

Lemma collapse_blank_idem (prev : bool) (lines : list pystr) :
  collapse_blank prev (collapse_blank prev lines) = collapse_blank prev lines.
Proof.
  revert prev. induction lines as [|line rest IH]; intros prev; [done|].
  simpl. case_bool_decide as Hb.
  - destruct prev; [apply IH|].
    change (collapse_blank false ([[]] ++ collapse_blank true rest))
      with ([[]] ++ collapse_blank true (collapse_blank true rest)).
    by rewrite IH.
  - cbn [collapse_blank]. rewrite bool_decide_false by done. by rewrite IH.
Qed.

Lemma collapse_blank_Forall (P : pystr -> Prop) (prev : bool)
    (lines : list pystr) :
  P [] -> Forall P lines -> Forall P (collapse_blank prev lines).
Proof.
  intros Hnil Hall. revert prev.
  induction Hall as [|line rest Hl _ IH]; intros prev; [constructor|].
  simpl. case_bool_decide.
  - destruct prev; simpl; [apply IH|]. constructor; [exact Hnil|apply IH].
  - constructor; [exact Hl|apply IH].
Qed.

Lemma collapse_blank_nonempty (lines : list pystr) :
  lines <> [] -> collapse_blank false lines <> [].
Proof. destruct lines as [|line rest]; [done|]. simpl. by case_bool_decide. Qed.

(** No two blank lines follow each other, and after a blank line
    ([prev]) the first one is not blank. *)
Lemma collapse_blank_adjacent (prev : bool) (lines : list pystr) (i : nat) :
  (prev = true -> head (collapse_blank prev lines) <> Some [])
  /\ (collapse_blank prev lines !! i = Some [] ->
      collapse_blank prev lines !! S i <> Some []).
Proof.
  revert prev i. induction lines as [|line rest IH]; intros prev i; [done|].
  simpl. case_bool_decide as Hb.
  - destruct prev; simpl.
    + split; [intros _; by apply (IH true 0%nat)|apply (IH true i)].
    + split; [done|]. destruct i as [|i]; simpl.
      * intros _. rewrite <- head_lookup. by apply (IH true 0%nat).
      * apply (IH true i).
  - split.
    + intros _ [= ->]. by apply Hb.
    + destruct i as [|i]; simpl.
      * intros [= ->]. by destruct Hb.
      * apply (IH false i).
Qed.

(** The lines of [clean_whitespace content]. *)
Lemma clean_whitespace_lines (content : pystr) :
  split_char 10 (clean_whitespace content)
  = collapse_blank false (map str_rstrip (split_char 10 content)).
Proof.
  unfold clean_whitespace. apply split_char_join.
  - apply collapse_blank_nonempty. pose proof (split_char_nonempty 10 content).
    by destruct (split_char 10 content).
  - apply collapse_blank_Forall; [apply not_elem_of_nil|].
    apply Forall_fmap. eapply Forall_impl; [apply split_char_lines|].
    intros l Hl. simpl. intros Hin.
    assert (Hall : Forall (fun c => c <> 10) (str_rstrip l)).
    { apply str_rstrip_Forall, Forall_forall. intros c Hc ->. done. }
    by apply (proj1 (Forall_forall _ _) Hall 10).
Qed.

(** X13.  Cleaning twice is cleaning once. *)
Theorem clean_whitespace_idempotent (content : pystr) :
  clean_whitespace (clean_whitespace content) = clean_whitespace content.
Proof.
  unfold clean_whitespace at 1. rewrite clean_whitespace_lines.
  unfold clean_whitespace. f_equal.
  set (lines := map str_rstrip (split_char 10 content)).
  assert (Hfix : map str_rstrip (collapse_blank false lines)
                 = collapse_blank false lines).
  { assert (Hall : Forall (fun l => str_rstrip l = l)
                     (collapse_blank false lines)).
    { apply collapse_blank_Forall; [done|]. unfold lines.
      apply Forall_fmap, Forall_forall. intros l _. apply str_rstrip_idem. }
    induction Hall as [|l ls Hl _ IH]; [done|]. simpl. by rewrite Hl, IH. }
  rewrite Hfix. apply collapse_blank_idem.
Qed.

(** X14.  In the result no line ends in white space, a line of white space
    has become empty, and no two empty lines follow each other. *)
Theorem clean_whitespace_result (content : pystr) :
  let lines := split_char 10 (clean_whitespace content) in
  Forall (fun l => str_rstrip l = l /\ (str_strip l = [] <-> l = [])) lines
  /\ forall i : nat, lines !! i = Some [] -> lines !! S i <> Some [].
Proof.
  cbv zeta. rewrite clean_whitespace_lines. split.
  - set (lines := map str_rstrip (split_char 10 content)).
    assert (Hr : Forall (fun l => str_rstrip l = l) (collapse_blank false lines)).
    { apply collapse_blank_Forall; [done|]. unfold lines.
      apply Forall_fmap, Forall_forall. intros l _. apply str_rstrip_idem. }
    assert (Hb : forall prev ls,
              Forall (fun l => str_strip l = [] <-> l = [])
                (collapse_blank prev ls)).
    { intros prev ls. revert prev.
      induction ls as [|l ls IH]; intros prev; [constructor|]. simpl.
      case_bool_decide as Hl.
      - destruct prev; simpl; [apply IH|]. constructor; [done|apply IH].
      - constructor; [|apply IH]. split; [done|]. intros ->. by destruct Hl. }
    specialize (Hb false lines).
    apply Forall_forall. intros l Hl.
    split; [by apply (proj1 (Forall_forall _ _) Hr)
           |by apply (proj1 (Forall_forall _ _) Hb)].
  - intros i. apply collapse_blank_adjacent.
Qed.

End Whitespace.

(** ** Reports *)

Lemma take_app_take {A} (n : nat) (l k : list A) :
  take n (l ++ take n k) = take n (l ++ k).
Proof. rewrite !take_app, take_take. do 2 f_equal. lia. Qed.

(** X17.  The history holds the hundred items saved last, the newest first,
    however long it was when it was loaded. *)
Theorem save_history_recent (item : pystr * pystr)
    (items history : list (pystr * pystr)) :
  fold_left (fun h it => save_history (fst it) (snd it) h) (item :: items)
    history
  = take 100 (rev (item :: items) ++ history).
Proof.
  revert item history. induction items as [|item' rest IH]; intros item history.
  - by destruct item.
  - cbn [fold_left] in *. rewrite IH. unfold save_history.
    rewrite <- surjective_pairing, take_app_take.
    change (rev (item :: item' :: rest)) with (rev (item' :: rest) ++ [item]).
    by rewrite <- app_assoc.
Qed.

Section Reports.
Context `{Runtime}.

(** X15.  [reading_time] fails for [wpm = 0] only. The estimate is at least
    one minute; for a positive [wpm] it is the number of whole minutes, so a
    text of fewer than [2 * wpm] words is one minute; for a negative [wpm]
    it is one minute. *)
Theorem reading_time_bounds (content : pystr) (wpm : Z) :
  let words := len (str_split_ws content) in
  match reading_time content wpm with
  | None => wpm = 0
  | Some t =>
      1 <= t
      /\ if 0 <? wpm
         then t * wpm <= Z.max wpm words < (t + 1) * wpm
         else wpm < 0 /\ t = 1
  end.
Proof.
  cbv zeta. unfold reading_time.
  assert (0 <= len (str_split_ws content)) by (unfold len; lia).
  destruct (Z.eqb_spec wpm 0); [done|]. split; [lia|].
  destruct (Z.ltb_spec 0 wpm).
  - pose proof (Z.div_mod (len (str_split_ws content)) wpm ltac:(lia)).
    pose proof (Z.mod_pos_bound (len (str_split_ws content)) wpm ltac:(lia)).
    nia.
  - split; [lia|].
    pose proof (Z.div_mod (len (str_split_ws content)) wpm ltac:(lia)).
    pose proof (Z.mod_neg_bound (len (str_split_ws content)) wpm ltac:(lia)).
    nia.
Qed.

Lemma find_matches_spec (search_text : pystr) (i : Z) (lines : list pystr) :
  Forall (fun m =>
            i <= fst m
            /\ exists line,
                 lines !! Z.to_nat (fst m - i) = Some line
                 /\ snd m = str_strip line
                 /\ str_contains (str_lower search_text) (str_lower line) = true)
    (find_matches search_text i lines).
Proof.
  revert i. induction lines as [|line rest IH]; intros i; [constructor|].
  cbn [find_matches]. apply Forall_app. split.
  - destruct (str_contains _ _) eqn:E; [|constructor].
    repeat constructor; simpl; [lia|]. exists line.
    by rewrite Z.sub_diag.
  - eapply Forall_impl; [apply (IH (i + 1))|].
    intros m (Hi & line' & Hl & Hs & Hc). split; [lia|].
    exists line'. split; [|done].
    replace (Z.to_nat (fst m - i)) with (S (Z.to_nat (fst m - (i + 1)))) by lia.
    exact Hl.
Qed.

Lemma find_matches_sorted (search_text : pystr) (i : Z) (lines : list pystr) :
  StronglySorted Z.lt (map fst (find_matches search_text i lines)).
Proof.
  revert i. induction lines as [|line rest IH]; intros i; [constructor|].
  cbn [find_matches]. destruct (str_contains _ _); [|apply IH].
  simpl. constructor; [apply IH|].
  apply Forall_fmap. eapply Forall_impl; [apply (find_matches_spec _ (i + 1))|].
  intros m [Hm _]. simpl. lia.
Qed.

Lemma find_matches_length (search_text : pystr) (i : Z) (lines : list pystr) :
  length (find_matches search_text i lines)
  = length (filter (fun line =>
                      str_contains (str_lower search_text) (str_lower line) = true)
              lines).
Proof.
  revert i. induction lines as [|line rest IH]; intros i; [done|].
  cbn [find_matches]. rewrite length_app, (IH (i + 1)), filter_cons.
  destruct (str_contains _ _) eqn:E.
  - by rewrite decide_True.
  - by rewrite decide_False.
Qed.

Lemma find_matches_texts (search_text : pystr) (i : Z) (lines : list pystr) :
  map snd (find_matches search_text i lines)
  = map str_strip
      (filter (fun line =>
                 str_contains (str_lower search_text) (str_lower line) = true)
         lines).
Proof.
  revert i. induction lines as [|line rest IH]; intros i; [done|].
  cbn [find_matches]. rewrite map_app, (IH (i + 1)), filter_cons.
  destruct (str_contains _ _) eqn:E.
  - by rewrite decide_True.
  - by rewrite decide_False.
Qed.

(** X16.  [find_in_document] reports the number of lines of the current
    document that hold the search text, upper and lower case alike. It shows
    the first ten of them in the order of the document, each with its
    number, counted from 1, and its text without the white space around it,
    and says how many it left out. *)
Theorem find_in_document_report (search_text : pystr) (app : CopyAppTUI)
    (doc : DocumentTab) :
  get_current_document app = Ok doc ->
  let lines := split_char 10 (content doc) in
  let hits :=
    filter (fun line =>
              str_contains (str_lower search_text) (str_lower line) = true)
      lines in
  match find_in_document search_text app with
  | Raise _ => False
  | Ok (NotFound s) => s = search_text /\ hits = []
  | Ok (Found total s shown more) =>
      s = search_text /\ total = len hits /\ 1 <= total
      /\ len shown = Z.min 10 total
      /\ more = (if 10 <? total then Some (total - 10) else None)
      /\ StronglySorted Z.lt (map fst shown)
      /\ map snd shown = map str_strip (take 10 hits)
      /\ Forall (fun m =>
                   1 <= fst m
                   /\ exists line,
                        lines !! Z.to_nat (fst m - 1) = Some line
                        /\ snd m = str_strip line
                        /\ line ∈ hits)
           shown
  end.
Proof.
  intros Hd. cbv zeta. unfold find_in_document. rewrite Hd.
  cbn [mbind result_bind].
  pose proof (find_matches_length search_text 1 (split_char 10 (content doc)))
    as Hlen.
  pose proof (find_matches_spec search_text 1 (split_char 10 (content doc)))
    as Hspec.
  pose proof (find_matches_sorted search_text 1 (split_char 10 (content doc)))
    as Hsorted.
  pose proof (find_matches_texts search_text 1 (split_char 10 (content doc)))
    as Htexts.
  destruct (find_matches search_text 1 (split_char 10 (content doc)))
    as [|m ms] eqn:Em.
  - split; [done|]. symmetry in Hlen. by apply length_zero_iff_nil in Hlen.
  - unfold len. rewrite <- Hlen, length_take.
    repeat split; try done.
    + simpl. lia.
    + lia.
    + rewrite <- (take_drop 10 (m :: ms)), map_app in Hsorted.
      by apply StronglySorted_app_1_l in Hsorted.
    + by rewrite <- !firstn_map, Htexts.
    + apply Forall_take. eapply Forall_impl; [exact Hspec|].
      intros m' (Hi & line & Hl & Hs & Hc). split; [exact Hi|].
      exists line. repeat split; try done.
      apply list_elem_of_filter. split; [exact Hc|].
      by eapply list_elem_of_lookup_2.
Qed.

End Reports.

(** ** The list of documents *)

Section Listing.
Context `{Runtime}.

(** X18.  In every reachable state [list_documents] marks one line, that of
    the document [get_current_document] returns. *)
Theorem list_documents_marks_current (app : CopyAppTUI) :
  reachable app ->
  exists d,
    get_current_document app = Ok d
    /\ list_documents app !! current_pos app
       = Some (mkListing true (current_doc_index app + 1) (name d)
                 (modified d) (len (content d)))
    /\ forall (i : nat) (line : Listing),
         list_documents app !! i = Some line -> i <> current_pos app ->
         listing_marker line = false.
Proof.
  intros Hr. pose proof (reachable_in_range app Hr) as Hc.
  pose proof (current_pos_in_range app Hc) as Hpos.
  apply in_range_iff in Hc as Hrange.
  destruct (getitem_in_range _ _ Hc) as (d & Hd & Hl).
  exists d. split; [unfold get_current_document; by rewrite Hc|].
  unfold list_documents. split.
  - rewrite list_lookup_imap, Hpos, Hl. simpl.
    rewrite bool_decide_true by lia. do 2 f_equal. lia.
  - intros i line Hi Hne. rewrite list_lookup_imap in Hi.
    destruct (documents app !! i); [|done]. simpl in Hi.
    injection Hi as <-. simpl. apply bool_decide_false. lia.
Qed.

End Listing.

(** ** The further properties on examples *)

(** The cursor of [two_documents] is on its second document. *)
Lemma cursor_always_in_range_witness :
  in_range (current_doc_index two_documents) (documents two_documents) = true
  /\ get_current_document two_documents
     = getitem (documents two_documents) (current_doc_index two_documents).
Proof.
  apply cursor_always_in_range. unfold two_documents, one_document.
  apply (reachable_step (quiet_world [py "a"]) CmdEdit).
  apply (reachable_step (quiet_world []) CmdNew).
  by apply (reachable_init []).
Defined.

(** [close 1] in [two_documents], whose second document is current. *)
Lemma close_document_keeps_current_witness :
  get_current_document
    (app_after (close_document (quiet_world []) (Some (py "1")) two_documents))
  = get_current_document two_documents.
Proof.
  apply (close_document_keeps_current (quiet_world []) (py "1") 1);
    by vm_compute.
Defined.

(** Closing the second, current document of [two_documents] leaves the
    first one current. *)
Lemma close_current_document_witness :
  get_current_document
    (app_after (close_document (quiet_world [py "y"]) None two_documents))
  = getitem (documents two_documents) 0.
Proof.
  apply (close_current_document (quiet_world [py "y"]) two_documents
           (document_of (py "Untitled-2") [])); by vm_compute.
Defined.

(** An edit in [two_documents] leaves the first document as it is. *)
Lemma edits_touch_only_current_witness :
  only_current two_documents
    (app_after (step (quiet_world [py "b"]) CmdEdit two_documents)).
Proof. by apply edits_touch_only_current. Defined.

(** [save a.txt] and then [save] on a full disk. *)
Lemma save_file_again_witness :
  let app1 :=
    app_after (save_file (quiet_world []) (Some (py "a.txt")) two_documents) in
  let out := save_file (full_disk_world []) None app1 in
  exists doc,
    get_current_document two_documents = Ok doc
    /\ app_after out = app1
    /\ match write_text (full_disk_world []) (py "/home/user/a.txt")
               (content doc) with
       | None => printed out = [Saved (py "/home/user/a.txt")]
                 /\ raised out = None
       | Some e =>
           if is_Exception e
           then printed out = [ErrorSaving (exn_str e)] /\ raised out = None
           else printed out = [] /\ raised out = Some e
       end.
Proof.
  apply (save_file_again (quiet_world []) (full_disk_world [])
           (Some (py "a.txt")) two_documents (py "/home/user/a.txt")).
  by vm_compute.
Defined.

(** ["Hello"] encoded under ["ab"] and decoded under ["ba"]. *)
Lemma decrypt_with_anagram_witness :
  exists encrypted,
    encrypt_content (py "Hello") (py "ab") = Ok encrypted
    /\ decrypt_content encrypted (py "ba") = py "Hello".
Proof.
  apply decrypt_with_anagram.
  - eapply Forall_impl; [|apply plain_ascii]. repeat constructor; by vm_compute.
  - apply (perm_swap 98 97 []).
Defined.

(** ["A"] listed twice, the second request completing first. *)
Lemma fetch_last_completed_wins_witness :
  exists results,
    fetch_multiple_urls two_urls_net ([1%nat] ++ [0%nat]) [py "A"; py "A"] 5
    = Ok results
    /\ results !! py "A" = Some (snd (fetch_single two_urls_net 0 (py "A"))).
Proof.
  apply (fetch_last_completed_wins two_urls_net [py "A"; py "A"] 5
           [1%nat] [] 0%nat (py "A")).
  - lia.
  - reflexivity.
  - intros j Hj. by apply elem_of_nil in Hj.
Defined.

(** [find a] in a document of one line. *)
Lemma find_in_document_report_witness :
  match find_in_document (py "a") (one_document (py "A b")) with
  | Ok (Found total s shown more) =>
      total = 1 /\ len shown = 1 /\ more = None
  | _ => False
  end.
Proof.
  pose proof (find_in_document_report (py "a") (one_document (py "A b"))
                (document_of (py "Untitled") (py "A b")) eq_refl) as Hf.
  cbv zeta in Hf.
  destruct (find_in_document (py "a") (one_document (py "A b")))
    as [[total s shown more|s]|e];
    [|destruct Hf as [_ Hf]; vm_compute in Hf; discriminate|done].
  destruct Hf as (_ & Ht & _ & Hs & Hm & _).
  assert (total = 1) as -> by (rewrite Ht; by vm_compute).
  by repeat split.
Defined.

(** The list of [two_documents] marks its second line. *)
Lemma list_documents_marks_current_witness :
  exists d,
    get_current_document two_documents = Ok d
    /\ list_documents two_documents !! current_pos two_documents
       = Some (mkListing true (current_doc_index two_documents + 1) (name d)
                 (modified d) (len (content d)))
    /\ forall (i : nat) (line : Listing),
         list_documents two_documents !! i = Some line ->
         i <> current_pos two_documents ->
         listing_marker line = false.
Proof.
  apply list_documents_marks_current. unfold two_documents, one_document.
  apply (reachable_step (quiet_world [py "a"]) CmdEdit).
  apply (reachable_step (quiet_world []) CmdNew).
  by apply (reachable_init []).
Defined.
